(** * ZKP private/public bridge: the two ledgers' contracts and the circuit

    A shallow embedding of

    - [HouseTokenizingGovernance] (the three-party approval registry deployed
      on the permissioned chain),
    - [HouseToken] (the ERC-1155 mint gate deployed on the public chain), and
    - [HouseApproval] (the circom template whose Groth16 proof the mint gate
      checks),

    together with the properties of the bridge protocol that are decided by
    these three pieces of code.

    Conventions.  A [uint256] and an [address] are naturals of type [N]; a
    Solidity [mapping] is a [gmap] read with the type's zero value when the
    key is absent; a contract function is a computation in a small
    state/log/revert monad, and a transaction runs such a computation and
    rolls the storage back when it reverts. *)

From Stdlib Require Import NArith ZArith Lia.
From stdpp Require Import base option list gmap strings vector.

Local Open Scope N_scope.

Abbreviation uint256 := N (only parsing).
Abbreviation address := N (only parsing).

(** The largest [uint256]; checked additions above it panic. *)
Definition MAX_UINT256 : N := 2 ^ 256 - 1.

(** ** Reverts *)

(** What a reverting call carries: a [require] string, one of the custom
    errors of the contracts, or an arithmetic panic. *)
Inductive error : Type :=
  | Error (reason : string)
  | InvalidProof
  | AlreadyMinted (houseId : uint256)
  | ERC1155InsufficientBalance (sender : address) (balance needed tokenId : uint256)
  | ERC1155InvalidSender (sender : address)
  | ERC1155InvalidReceiver (receiver : address)
  | ERC1155MissingApprovalForAll (operator owner : address)
  | ERC1155InvalidOperator (operator : address)
  | ERC1155InvalidArrayLength (idsLength valuesLength : uint256)
  | OwnableUnauthorizedAccount (account : address)
  | OwnableInvalidOwner (owner : address)
  | Panic (code : N)
  | ExternalCallFailed.

(** ** The execution monad *)

Inductive outcome (A : Type) : Type :=
  | Done (a : A)
  | Reverted (e : error).
Arguments Done {A} a.
Arguments Reverted {A} e.

(** What a transaction leaves behind: its log when it succeeded, the error
    when it reverted. *)
Inductive receipt (Ev : Type) : Type :=
  | Success (logs : list Ev)
  | Failure (e : error).
Arguments Success {Ev} logs.
Arguments Failure {Ev} e.

Section Exec.
Context {St Ev : Type}.

(** A contract function body: reads and writes the storage [St], appends
    to the log, and either returns or reverts. *)
Definition exec (A : Type) : Type :=
  St → list Ev → outcome (A * St * list Ev).

Definition ret {A} (a : A) : exec A :=
  λ s log, Done (a, s, log).

Definition bind {A B} (m : exec A) (k : A → exec B) : exec B :=
  λ s log,
    match m s log with
    | Done (a, s', log') => k a s' log'
    | Reverted e => Reverted e
    end.

Definition sload : exec St :=
  λ s log, Done (s, s, log).

Definition sstore (f : St → St) : exec unit :=
  λ s log, Done (tt, f s, log).

Definition emit (e : Ev) : exec unit :=
  λ s log, Done (tt, s, log ++ [e]).

Definition revert {A} (e : error) : exec A :=
  λ _ _, Reverted e.

(** [require(cond, reason)] *)
Definition require (cond : bool) (reason : string) : exec unit :=
  if cond then ret tt else revert (Error reason).

(** A transaction: the body runs on the current storage with an empty
    log; a revert anywhere in the body discards every write and every
    event of the call. *)
Definition transact (body : exec unit) (s : St) : St * receipt Ev :=
  match body s [] with
  | Done (_, s', log) => (s', Success log)
  | Reverted e => (s, Failure e)
  end.

Definition logs_of (r : receipt Ev) : list Ev :=
  match r with Success l => l | Failure _ => [] end.

(** Every event emitted over a sequence of transactions, oldest first. *)
Definition emitted (rs : list (receipt Ev)) : list Ev :=
  concat (map logs_of rs).

End Exec.

Declare Scope exec_scope.
Delimit Scope exec_scope with exec.
Notation "x <- m ;; k" := (bind m (λ x, k))
  (at level 100, m at next level, right associativity) : exec_scope.
Notation "m ;; k" := (bind m (λ _, k))
  (at level 100, right associativity) : exec_scope.

(** Number of occurrences of an event in a log. *)
Definition occurrences {Ev} `{EqDecision Ev} (e : Ev) (log : list Ev) : nat :=
  length (filter (λ x, x = e) log).

Definition b2n (b : bool) : nat := if b then 1%nat else 0%nat.

(** Number of transactions of a sequence at which the observation [f] of the
    storage goes from [false] to [true]. *)
Fixpoint flips {St T R : Type} (step : St → T → St * R) (f : St → bool)
    (s : St) (ts : list T) : nat :=
  match ts with
  | [] => 0
  | t :: ts' =>
      let s' := (step s t).1 in
      ((if negb (f s) && f s' then 1 else 0) + flips step f s' ts')%nat
  end.

(** * The approval registry: HouseTokenizingGovernance *)

Module HouseTokenizingGovernance.

Record ApprovalState : Type := mkApprovalState {
  agentApproved : bool;
  bankApproved : bool;
  housingDeptApproved : bool;
  fullyApproved : bool
}.

#[global] Instance ApprovalState_eq_dec : EqDecision ApprovalState.
Proof. solve_decision. Defined.

(** The value a mapping slot reads before it was ever written. *)
Definition zeroApprovalState : ApprovalState :=
  mkApprovalState false false false false.

Inductive event : Type :=
  | HouseApproved (houseId : uint256) (approver : address) (role : string)
  | HouseFullyApproved (houseId : uint256).

#[global] Instance event_eq_dec : EqDecision event.
Proof. solve_decision. Defined.

(** The deployed contract: the three immutables and the storage. *)
Record contract : Type := mkContract {
  agent : address;
  bank : address;
  housingDept : address;
  approvals : gmap N ApprovalState
}.

Definition constructor (_agent _bank _housingDept : address) : contract :=
  mkContract _agent _bank _housingDept ∅.

(** [approvals[houseId]] read through a storage pointer. *)
Definition approvalsAt (c : contract) (houseId : uint256) : ApprovalState :=
  default zeroApprovalState (approvals c !! houseId).

(** A write of one field of [approvals[houseId]]. *)
Definition updateApprovals (houseId : uint256)
    (f : ApprovalState → ApprovalState) (c : contract) : contract :=
  mkContract (agent c) (bank c) (housingDept c)
    (<[houseId := f (approvalsAt c houseId)]> (approvals c)).

Definition set_agentApproved (v : bool) (s : ApprovalState) : ApprovalState :=
  mkApprovalState v (bankApproved s) (housingDeptApproved s) (fullyApproved s).
Definition set_bankApproved (v : bool) (s : ApprovalState) : ApprovalState :=
  mkApprovalState (agentApproved s) v (housingDeptApproved s) (fullyApproved s).
Definition set_housingDeptApproved (v : bool) (s : ApprovalState) : ApprovalState :=
  mkApprovalState (agentApproved s) (bankApproved s) v (fullyApproved s).
Definition set_fullyApproved (v : bool) (s : ApprovalState) : ApprovalState :=
  mkApprovalState (agentApproved s) (bankApproved s) (housingDeptApproved s) v.

Local Open Scope exec_scope.

Abbreviation fn := (@exec contract event).

(** The three modifiers. *)
Definition onlyAgent (sender : address) {A} (body : fn A) : fn A :=
  c <- sload ;;
  require (bool_decide (sender = agent c)) "Not Agent" ;;
  body.

Definition onlyBank (sender : address) {A} (body : fn A) : fn A :=
  c <- sload ;;
  require (bool_decide (sender = bank c)) "Not Bank" ;;
  body.

Definition onlyHousingDept (sender : address) {A} (body : fn A) : fn A :=
  c <- sload ;;
  require (bool_decide (sender = housingDept c)) "Not HousingDept" ;;
  body.

Definition _checkFullApproval (houseId : uint256) : fn unit :=
  c <- sload ;;
  let s := approvalsAt c houseId in
  if agentApproved s && bankApproved s && housingDeptApproved s
     && negb (fullyApproved s)
  then
    sstore (updateApprovals houseId (set_fullyApproved true)) ;;
    emit (HouseFullyApproved houseId)
  else ret tt.

Definition approveAsAgent (sender : address) (houseId : uint256) : fn unit :=
  onlyAgent sender (
    c <- sload ;;
    require (negb (agentApproved (approvalsAt c houseId))) "Agent already approved" ;;
    sstore (updateApprovals houseId (set_agentApproved true)) ;;
    emit (HouseApproved houseId sender "Agent") ;;
    _checkFullApproval houseId).

Definition approveAsBank (sender : address) (houseId : uint256) : fn unit :=
  onlyBank sender (
    c <- sload ;;
    require (negb (bankApproved (approvalsAt c houseId))) "Bank already approved" ;;
    sstore (updateApprovals houseId (set_bankApproved true)) ;;
    emit (HouseApproved houseId sender "Bank") ;;
    _checkFullApproval houseId).

Definition approveAsHousingDept (sender : address) (houseId : uint256) : fn unit :=
  onlyHousingDept sender (
    c <- sload ;;
    require (negb (housingDeptApproved (approvalsAt c houseId)))
      "HousingDept already approved" ;;
    sstore (updateApprovals houseId (set_housingDeptApproved true)) ;;
    emit (HouseApproved houseId sender "HousingDept") ;;
    _checkFullApproval houseId).

(** The view function: a pure read. *)
Definition getApprovalState (c : contract) (houseId : uint256)
    : bool * bool * bool * bool :=
  let s := approvalsAt c houseId in
  (agentApproved s, bankApproved s, housingDeptApproved s, fullyApproved s).

(** *** Transactions *)

(** The three roles of the registry and the state-changing entry point
    each one owns. *)
Inductive role : Type := Agent | Bank | HousingDept.

#[global] Instance role_eq_dec : EqDecision role.
Proof. solve_decision. Defined.

Definition approveAs (r : role) : address → uint256 → fn unit :=
  match r with
  | Agent => approveAsAgent
  | Bank => approveAsBank
  | HousingDept => approveAsHousingDept
  end.

Definition roleAddress (r : role) (c : contract) : address :=
  match r with
  | Agent => agent c
  | Bank => bank c
  | HousingDept => housingDept c
  end.

Definition roleFlag (r : role) (s : ApprovalState) : bool :=
  match r with
  | Agent => agentApproved s
  | Bank => bankApproved s
  | HousingDept => housingDeptApproved s
  end.

Definition roleName (r : role) : string :=
  match r with
  | Agent => "Agent"
  | Bank => "Bank"
  | HousingDept => "HousingDept"
  end.

Definition set_roleFlag (r : role) (v : bool) : ApprovalState → ApprovalState :=
  match r with
  | Agent => set_agentApproved v
  | Bank => set_bankApproved v
  | HousingDept => set_housingDeptApproved v
  end.

(** The three role flags together. *)
Definition allApproved (s : ApprovalState) : bool :=
  agentApproved s && bankApproved s && housingDeptApproved s.

(** The revert strings of the modifiers and of the double-approval guards. *)
Definition notAuthorized (r : role) : error :=
  match r with
  | Agent => Error "Not Agent"
  | Bank => Error "Not Bank"
  | HousingDept => Error "Not HousingDept"
  end.

Definition alreadyApproved (r : role) : error :=
  match r with
  | Agent => Error "Agent already approved"
  | Bank => Error "Bank already approved"
  | HousingDept => Error "HousingDept already approved"
  end.

(** A transaction sent to the registry: who sends it, which approve
    function it calls, and for which asset. *)
Record tx : Type := mkTx {
  msg_sender : address;
  tx_role : role;
  tx_houseId : uint256
}.

Definition step (c : contract) (t : tx) : contract * receipt event :=
  transact (approveAs (tx_role t) (msg_sender t) (tx_houseId t)) c.

(** The registry after a sequence of transactions, with their receipts. *)
Fixpoint run (c : contract) (ts : list tx) : contract * list (receipt event) :=
  match ts with
  | [] => (c, [])
  | t :: ts' =>
      let '(c1, r) := step c t in
      let '(c2, rs) := run c1 ts' in
      (c2, r :: rs)
  end.

(** The storage and the log that the body of an approve function leaves
    once its two guards have passed: the role's flag is written, then
    [_checkFullApproval] runs on the updated record. *)
Definition approved (r : role) (houseId : uint256) (c : contract) : contract :=
  let c1 := updateApprovals houseId (set_roleFlag r true) c in
  let s1 := approvalsAt c1 houseId in
  if allApproved s1 && negb (fullyApproved s1)
  then updateApprovals houseId (set_fullyApproved true) c1
  else c1.

Definition approvalLog (r : role) (sender : address) (houseId : uint256)
    (c : contract) : list event :=
  let s1 := set_roleFlag r true (approvalsAt c houseId) in
  HouseApproved houseId sender (roleName r)
    :: (if allApproved s1 && negb (fullyApproved s1)
        then [HouseFullyApproved houseId] else []).

(** The invariant tying the derived flag to the three role flags. *)
Definition aggregated_ok (s : ApprovalState) : Prop :=
  fullyApproved s = allApproved s.

Definition consistent (c : contract) : Prop :=
  ∀ houseId, aggregated_ok (approvalsAt c houseId).

End HouseTokenizingGovernance.

(** * The mint gate: HouseToken *)

Module HouseToken.

(** The Groth16 proof points and the public signals, as the ABI passes
    them: [uint[2]], [uint[2][2]], [uint[2]] and [uint[1]]. *)
Abbreviation uint_2 := (vec N 2).
Abbreviation uint_2_2 := (vec (vec N 2) 2).
Abbreviation uint_1 := (vec N 1).

Inductive event : Type :=
  | HouseTokenMinted (houseId : uint256) (recipient : address) (proofHash : N)
  | TransferSingle (operator from to : address) (id value : uint256)
  | TransferBatch (operator from to : address) (ids values : list N)
  | ApprovalForAll (account operator : address) (approved : bool)
  | OwnershipTransferred (previousOwner newOwner : address).

#[global] Instance event_eq_dec : EqDecision event.
Proof. solve_decision. Defined.

(** The deployed contract: the immutable [verifier], the [minted] mapping
    of HouseToken, and the storage inherited from ERC1155 and Ownable.
    The nested mappings [_balances[id][account]] and
    [_operatorApprovals[account][operator]] are keyed by the pair. *)
Record contract : Type := mkContract {
  verifier : address;
  minted : gmap N bool;
  _balances : gmap (N * N) N;
  _operatorApprovals : gmap (N * N) bool;
  _uri : string;
  _owner : address
}.

Definition constructor (deployer _verifier : address) (uri_ : string) : contract :=
  mkContract _verifier ∅ ∅ ∅ uri_ deployer.

(** The public getters. *)
Definition isMinted (c : contract) (houseId : uint256) : bool :=
  default false (minted c !! houseId).

Definition balanceOf (c : contract) (account : address) (id : uint256) : uint256 :=
  default 0 (_balances c !! (id, account)).

Definition isApprovedForAll (c : contract) (account operator : address) : bool :=
  default false (_operatorApprovals c !! (account, operator)).

(** The storage writes. *)
Definition set_minted (houseId : uint256) (v : bool) (c : contract) : contract :=
  mkContract (verifier c) (<[houseId := v]> (minted c)) (_balances c)
    (_operatorApprovals c) (_uri c) (_owner c).

Definition set_balance (id : uint256) (account : address) (v : uint256)
    (c : contract) : contract :=
  mkContract (verifier c) (minted c) (<[(id, account) := v]> (_balances c))
    (_operatorApprovals c) (_uri c) (_owner c).

Definition set_operatorApproval (account operator : address) (v : bool)
    (c : contract) : contract :=
  mkContract (verifier c) (minted c) (_balances c)
    (<[(account, operator) := v]> (_operatorApprovals c)) (_uri c) (_owner c).

Definition set_uri (v : string) (c : contract) : contract :=
  mkContract (verifier c) (minted c) (_balances c) (_operatorApprovals c)
    v (_owner c).

Definition set_owner (v : address) (c : contract) : contract :=
  mkContract (verifier c) (minted c) (_balances c) (_operatorApprovals c)
    (_uri c) v.

(** [abi.encode(_pA, _pB, _pC)]: the eight words in order. *)
Definition abi_encode (_pA : uint_2) (_pB : uint_2_2) (_pC : uint_2) : list N :=
  vec_to_list _pA ++ concat (map vec_to_list (vec_to_list _pB)) ++ vec_to_list _pC.

(** *** Calls *)

Inductive call : Type :=
  | MintHouseToken (houseId : uint256) (_pA : uint_2) (_pB : uint_2_2)
      (_pC : uint_2) (_pubSignals : uint_1) (recipient : address)
  | SetURI (newUri : string)
  | SafeTransferFrom (from to : address) (id value : uint256) (data : string)
  | SafeBatchTransferFrom (from to : address) (ids values : list N)
      (data : string)
  | SetApprovalForAll (operator : address) (approved : bool)
  | TransferOwnership (newOwner : address)
  | RenounceOwnership.

(** A call into the contract: a transaction, or a message call made by
    another contract while a transaction runs. *)
Record tx : Type := mkTx {
  msg_sender : address;
  msg_call : call
}.

Definition is_mint (t : tx) : bool :=
  match msg_call t with
  | MintHouseToken _ _ _ _ _ _ => true
  | _ => false
  end.

(** One entry of the trace a call leaves behind: an event the contract
    emitted, or the mark [Called t] that a receiver hook called back into
    the contract with [t] and that call returned normally; the entries of
    that inner call follow its mark.  A call that reverts leaves no
    entry. *)
Inductive item : Type :=
  | Log (e : event)
  | Called (t : tx).

Definition events (trace : list item) : list event :=
  omap (λ i, match i with Log e => Some e | Called _ => None end) trace.

Definition calls (trace : list item) : list tx :=
  omap (λ i, match i with Called t => Some t | Log _ => None end) trace.

(** *** The world outside the contract *)

(** How the call of a receiver hook ends: with the expected selector, with
    another value, or by a revert without or with data. *)
Inductive response : Type :=
  | Accepted
  | WrongValue
  | RevertedEmpty
  | RevertedWith (e : error).

(** The code of a receiver hook.  It is an ordinary message call, so before
    it answers it may call back into HouseToken any number of times and act
    on what each call returns, read the contract's getters and its own
    storage [E], and write its own storage. *)
Inductive script (E : Type) : Type :=
  | Answer (r : response)
  | Reenter (t : tx) (k : receipt item → script E)
  | Observe (k : contract → E → script E)
  | Update (f : E → E) (k : script E).
Arguments Answer {E} r.
Arguments Reenter {E} t k.
Arguments Observe {E} k.
Arguments Update {E} f k.

(** The state a transaction runs on, and rolls back as a whole when it
    reverts: the storage of HouseToken and the storage of the contracts
    around it. *)
Record chain (E : Type) : Type := mkChain {
  token : contract;
  env : E
}.
Arguments mkChain {E} _ _.
Arguments token {E} _.
Arguments env {E} _.

(** What the contract reaches outside itself.  The verifier behind the
    [IVerifier] interface is called with a static call: it cannot write,
    but it can read the state it is called in, and it either returns a
    boolean or reverts with its own error, which the caller passes on.
    [hasCode] tells contracts from externally owned accounts; the two hooks
    give the code a receiving contract runs. *)
Record world (E : Type) : Type := mkWorld {
  verifyProof :
    chain E → address → uint_2 → uint_2_2 → uint_2 → uint_1 → outcome bool;
  keccak256 : list N → N;
  hasCode : E → address → bool;
  onERC1155Received :
    address → address → address → uint256 → uint256 → string → script E;
  onERC1155BatchReceived :
    address → address → address → list N → list N → string → script E
}.
Arguments mkWorld {E} _ _ _ _ _.
Arguments verifyProof {E} _ _ _ _ _ _ _.
Arguments keccak256 {E} _ _.
Arguments hasCode {E} _ _ _.
Arguments onERC1155Received {E} _ _ _ _ _ _ _.
Arguments onERC1155BatchReceived {E} _ _ _ _ _ _ _.

Local Open Scope exec_scope.

Abbreviation fn E := (@exec (chain E) item).

(** Reads and writes of HouseToken's own storage, and its events. *)
Definition tload {E} : fn E contract :=
  st <- sload ;; ret (token st).

Definition tstore {E} (f : contract → contract) : fn E unit :=
  sstore (λ st, mkChain (f (token st)) (env st)).

Definition emitEvent {E} (e : event) : fn E unit :=
  emit (Log e).

(** Lifts the result of an external call into the caller: a revert is
    passed on with its error. *)
Definition external {E A} (r : outcome A) : fn E A :=
  match r with
  | Done a => ret a
  | Reverted e => revert e
  end.

Section Functions.
Context {E : Type} (W : world E).

(** How a call back into the contract from inside a hook is run: it gives
    the state after the call and its receipt. *)
Context (nested : chain E → tx → chain E * receipt item).

(** The run of a hook.  An inner call that returns normally leaves its
    mark and its entries in the trace; one that reverts leaves nothing, and
    the hook goes on with its receipt. *)
Fixpoint run_script (s : script E) (st : chain E) (trace : list item)
    : outcome (response * chain E * list item) :=
  match s with
  | Answer r => Done (r, st, trace)
  | Reenter t k =>
      let '(st', r) := nested st t in
      run_script (k r) st'
        (trace ++ match r with
                  | Success inner => Called t :: inner
                  | Failure _ => []
                  end)
  | Observe k => run_script (k (token st) (env st)) st trace
  | Update f k => run_script k (mkChain (token st) (f (env st))) trace
  end.

(** *** ERC1155 (OpenZeppelin Contracts 5.x)

    The library is imported by the contract, not part of it; its
    functions are embedded as that release defines them. *)

(** One round of the loop of [_update]. *)
Definition _updateOne (from to : address) (id value : uint256) : fn E unit :=
  (if bool_decide (from ≠ 0) then
     c <- tload ;;
     let fromBalance := balanceOf c from id in
     if fromBalance <? value
     then revert (ERC1155InsufficientBalance from fromBalance value id)
     else tstore (set_balance id from (fromBalance - value))
   else ret tt) ;;
  (if bool_decide (to ≠ 0) then
     c <- tload ;;
     let toBalance := balanceOf c to id in
     if MAX_UINT256 <? toBalance + value
     then revert (Panic 17)
     else tstore (set_balance id to (toBalance + value))
   else ret tt).

Fixpoint _updateLoop (from to : address) (ids values : list N) : fn E unit :=
  match ids, values with
  | id :: ids', value :: values' =>
      _updateOne from to id value ;;
      _updateLoop from to ids' values'
  | _, _ => ret tt
  end.

Definition _update (sender from to : address) (ids values : list N) : fn E unit :=
  if bool_decide (length ids ≠ length values)
  then revert (ERC1155InvalidArrayLength (N.of_nat (length ids))
                 (N.of_nat (length values)))
  else
    _updateLoop from to ids values ;;
    match ids, values with
    | [id], [value] => emitEvent (TransferSingle sender from to id value)
    | _, _ => emitEvent (TransferBatch sender from to ids values)
    end.

(** The acceptance check: a receiver with code has its hook called, after
    the balances are written and the transfer event is emitted; anything
    but the expected selector reverts the transfer. *)
Definition acceptanceCheck (to : address) (hook : script E) : fn E unit :=
  st <- sload ;;
  if hasCode W (env st) to then
    r <- run_script hook ;;
    match r with
    | Accepted => ret tt
    | WrongValue | RevertedEmpty => revert (ERC1155InvalidReceiver to)
    | RevertedWith e => revert e
    end
  else ret tt.

Definition _updateWithAcceptanceCheck (sender from to : address)
    (ids values : list N) (data : string) : fn E unit :=
  _update sender from to ids values ;;
  if bool_decide (to ≠ 0) then
    match ids, values with
    | [id], [value] =>
        acceptanceCheck to (onERC1155Received W to sender from id value data)
    | _, _ =>
        acceptanceCheck to
          (onERC1155BatchReceived W to sender from ids values data)
    end
  else ret tt.

Definition _mint (sender to : address) (id value : uint256) (data : string)
    : fn E unit :=
  if bool_decide (to = 0) then revert (ERC1155InvalidReceiver 0)
  else _updateWithAcceptanceCheck sender 0 to [id] [value] data.

Definition _safeTransferFrom (sender from to : address) (id value : uint256)
    (data : string) : fn E unit :=
  if bool_decide (to = 0) then revert (ERC1155InvalidReceiver 0)
  else if bool_decide (from = 0) then revert (ERC1155InvalidSender 0)
  else _updateWithAcceptanceCheck sender from to [id] [value] data.

Definition safeTransferFrom (sender from to : address) (id value : uint256)
    (data : string) : fn E unit :=
  c <- tload ;;
  if bool_decide (from ≠ sender) && negb (isApprovedForAll c from sender)
  then revert (ERC1155MissingApprovalForAll sender from)
  else _safeTransferFrom sender from to id value data.

Definition safeBatchTransferFrom (sender from to : address)
    (ids values : list N) (data : string) : fn E unit :=
  c <- tload ;;
  if bool_decide (from ≠ sender) && negb (isApprovedForAll c from sender)
  then revert (ERC1155MissingApprovalForAll sender from)
  else if bool_decide (to = 0) then revert (ERC1155InvalidReceiver 0)
  else if bool_decide (from = 0) then revert (ERC1155InvalidSender 0)
  else _updateWithAcceptanceCheck sender from to ids values data.

Definition setApprovalForAll (sender operator : address) (approved : bool)
    : fn E unit :=
  if bool_decide (operator = 0) then revert (ERC1155InvalidOperator 0)
  else
    tstore (set_operatorApproval sender operator approved) ;;
    emitEvent (ApprovalForAll sender operator approved).

(** *** Ownable (OpenZeppelin Contracts 5.x) *)

Definition onlyOwner (sender : address) {A} (body : fn E A) : fn E A :=
  c <- tload ;;
  if bool_decide (_owner c ≠ sender)
  then revert (OwnableUnauthorizedAccount sender)
  else body.

Definition _transferOwnership (newOwner : address) : fn E unit :=
  c <- tload ;;
  tstore (set_owner newOwner) ;;
  emitEvent (OwnershipTransferred (_owner c) newOwner).

Definition transferOwnership (sender newOwner : address) : fn E unit :=
  onlyOwner sender (
    if bool_decide (newOwner = 0) then revert (OwnableInvalidOwner 0)
    else _transferOwnership newOwner).

Definition renounceOwnership (sender : address) : fn E unit :=
  onlyOwner sender (_transferOwnership 0).

(** *** HouseToken *)

Definition mintHouseToken (sender : address) (houseId : uint256)
    (_pA : uint_2) (_pB : uint_2_2) (_pC : uint_2) (_pubSignals : uint_1)
    (recipient : address) : fn E unit :=
  st <- sload ;;
  let c := token st in
  (* 1. One-time mint guard *)
  (if isMinted c houseId then revert (AlreadyMinted houseId) else ret tt) ;;
  (* 2. Public signal consistency check *)
  require (bool_decide (_pubSignals !!! 0%fin = houseId))
    "HouseToken: houseId mismatch" ;;
  (* 3. ZKP verification *)
  valid <- external (verifyProof W st (verifier c) _pA _pB _pC _pubSignals) ;;
  (if negb valid then revert InvalidProof else ret tt) ;;
  (* 4. Mint exactly 1 token *)
  tstore (set_minted houseId true) ;;
  _mint sender recipient houseId 1 "" ;;
  emitEvent (HouseTokenMinted houseId recipient
               (keccak256 W (abi_encode _pA _pB _pC))).

Definition setURI (sender : address) (newUri : string) : fn E unit :=
  onlyOwner sender (tstore (set_uri newUri)).

Definition dispatch (t : tx) : fn E unit :=
  let sender := msg_sender t in
  match msg_call t with
  | MintHouseToken houseId _pA _pB _pC _pubSignals recipient =>
      mintHouseToken sender houseId _pA _pB _pC _pubSignals recipient
  | SetURI newUri => setURI sender newUri
  | SafeTransferFrom from to id value data =>
      safeTransferFrom sender from to id value data
  | SafeBatchTransferFrom from to ids values data =>
      safeBatchTransferFrom sender from to ids values data
  | SetApprovalForAll operator approved =>
      setApprovalForAll sender operator approved
  | TransferOwnership newOwner => transferOwnership sender newOwner
  | RenounceOwnership => renounceOwnership sender
  end.

(** One call into the contract, as a frame of its own: it commits its
    writes and its trace, or reverts and leaves the state as it was. *)
Definition step_with (st : chain E) (t : tx) : chain E * receipt item :=
  transact (dispatch t) st.

End Functions.

(** *** Transactions *)

Section Frames.
Context {E : Type} (W : world E).

(** A call into the contract with room for [depth] further levels of calls
    back from hooks; below that a call back fails, as a message call does
    when the call depth or the gas is used up. *)
Fixpoint step (depth : nat) : chain E → tx → chain E * receipt item :=
  match depth with
  | O => step_with W (λ st _, (st, Failure ExternalCallFailed))
  | S depth' => step_with W (step depth')
  end.

Fixpoint run (depth : nat) (st : chain E) (ts : list tx)
    : chain E * list (receipt item) :=
  match ts with
  | [] => (st, [])
  | t :: ts' =>
      let '(st1, r) := step depth st t in
      let '(st2, rs) := run depth st1 ts' in
      (st2, r :: rs)
  end.

End Frames.

(** How a call back from a hook is run inside a call that has room for
    [depth] levels. *)
Definition callback {E} (W : world E) (depth : nat)
    : chain E → tx → chain E * receipt item :=
  match depth with
  | O => λ st _, (st, Failure ExternalCallFailed)
  | S depth' => step W depth'
  end.

(** The trace of a sequence of transactions: each transaction that
    succeeded, followed by the entries of its own trace. *)
Definition history (ts : list tx) (rs : list (receipt item)) : list item :=
  concat (zip_with (λ t r, match r with
                           | Success trace => Called t :: trace
                           | Failure _ => []
                           end) ts rs).

(** The chain right after deployment. *)
Definition deployed {E} (deployer _verifier : address) (uri_ : string)
    (e : E) : chain E :=
  mkChain (constructor deployer _verifier uri_) e.

(** A call of mintHouseToken for [houseId] whose public signal 0 is
    [houseId] and whose proof the verifier at [v] accepted in the state
    [called] it was called in. *)
Definition acceptedMint {E} (W : world E) (v : address) (houseId : uint256)
    (t : tx) : Prop :=
  ∃ sender _pA _pB _pC _pubSignals recipient called,
    t = mkTx sender (MintHouseToken houseId _pA _pB _pC _pubSignals recipient) ∧
    _pubSignals !!! 0%fin = houseId ∧
    verifyProof W called v _pA _pB _pC _pubSignals = Done true.

(** *** Worlds for the examples *)

(** The verifier of the examples accepts the proofs whose first word is
    the public signal. *)
Definition demoVerifier (_ : chain unit) (_ : address) (_pA : uint_2)
    (_ : uint_2_2) (_ : uint_2) (_pubSignals : uint_1) : outcome bool :=
  Done (bool_decide (_pA !!! 0%fin = _pubSignals !!! 0%fin)).

Definition demoProof (houseId signal : uint256) (recipient : address) : call :=
  MintHouseToken houseId [# houseId; 0] [# [# 0; 0]; [# 0; 0]] [# 0; 0]
    [# signal] recipient.

Definition demoMint (houseId signal : uint256) (recipient : address) : tx :=
  mkTx 9 (demoProof houseId signal recipient).

(** Every receiver is an externally owned account. *)
Definition demoWorld : world unit :=
  mkWorld demoVerifier (λ words, foldr N.add 0 words) (λ _ _, false)
    (λ _ _ _ _ _ _, Answer Accepted) (λ _ _ _ _ _ _, Answer Accepted).

(** Account 7 is a contract that passes every token it receives on to
    account 8 before it accepts. *)
Definition forwardingWorld : world unit :=
  mkWorld demoVerifier (λ words, foldr N.add 0 words)
    (λ _ a, bool_decide (a = 7))
    (λ to _ _ id value _,
       Reenter (mkTx to (SafeTransferFrom to 8 id value ""))
         (λ _, Answer Accepted))
    (λ _ _ _ _ _ _, Answer Accepted).

(** Account 7 is a contract that, on receiving token 42, mints asset 43 to
    account 8 before it accepts. *)
Definition mintingWorld : world unit :=
  mkWorld demoVerifier (λ words, foldr N.add 0 words)
    (λ _ a, bool_decide (a = 7))
    (λ to _ _ id _ _,
       if bool_decide (id = 42)
       then Reenter (mkTx to (demoProof 43 43 8)) (λ _, Answer Accepted)
       else Answer Accepted)
    (λ _ _ _ _ _ _, Answer Accepted).

(** Account 7 is a contract that, on receiving a token, tries to mint the
    same asset once more to account 8, and accepts only when that call is
    refused as already minted. *)
Definition greedyWorld : world unit :=
  mkWorld demoVerifier (λ words, foldr N.add 0 words)
    (λ _ a, bool_decide (a = 7))
    (λ to _ _ id _ _,
       Reenter (mkTx to (demoProof id id 8))
         (λ r, match r with
               | Failure (AlreadyMinted _) => Answer Accepted
               | _ => Answer RevertedEmpty
               end))
    (λ _ _ _ _ _ _, Answer Accepted).

End HouseToken.

(** * The circuit: HouseApproval *)

Module HouseApproval.

Local Open Scope Z_scope.

(** The signals of the template, in declaration order. *)
Inductive signal : Type :=
  | agentApproved
  | bankApproved
  | houseId
  | agentCheck
  | bankCheck
  | bothApproved
  | houseBound.

#[global] Instance signal_eq_dec : EqDecision signal.
Proof. solve_decision. Defined.

Definition signals : list signal :=
  [agentApproved; bankApproved; houseId; agentCheck; bankCheck; bothApproved;
   houseBound].

(** How a signal is declared: [signal input] is private unless the main
    component lists it in [public [...]]; a plain [signal] is internal. *)
Inductive visibility : Type := PrivateInput | PublicInput | Internal.

#[global] Instance visibility_eq_dec : EqDecision visibility.
Proof. solve_decision. Defined.

Definition declared (s : signal) : visibility :=
  match s with
  | agentApproved | bankApproved => PrivateInput
  | houseId => PublicInput
  | agentCheck | bankCheck | bothApproved | houseBound => Internal
  end.

Definition privateInputs : list signal :=
  filter (λ s, declared s = PrivateInput) signals.

Definition publicInputs : list signal :=
  filter (λ s, declared s = PublicInput) signals.

(** A witness bundle that covers the three approvals of the registry
    gives each role a private input signal of its own. *)
Definition oneSignalPerRole (f : HouseTokenizingGovernance.role → signal)
    : Prop :=
  (∀ r, declared (f r) = PrivateInput) ∧
  (∀ r1 r2, f r1 = f r2 → r1 = r2).

(** The input bundle handed to the witness generator. *)
Record inputs : Type := mkInputs {
  in_agentApproved : Z;
  in_bankApproved : Z;
  in_houseId : Z
}.

Section Field.
(** The order of the scalar field the circuit is compiled for. *)
Context (p : Z).

Definition fmul (a b : Z) : Z := (a * b) mod p.
Definition fsub (a b : Z) : Z := (a - b) mod p.

(** A value for every signal. *)
Definition assignment : Type := signal → Z.

(** The constraints of the template: [<==] assigns and constrains,
    [===] only constrains. *)
Definition constraints (w : assignment) : Prop :=
  w agentCheck = fmul (w agentApproved) (fsub (w agentApproved) 1) ∧
  w agentCheck = 0 mod p ∧
  w bankCheck = fmul (w bankApproved) (fsub (w bankApproved) 1) ∧
  w bankCheck = 0 mod p ∧
  w bothApproved = fmul (w agentApproved) (w bankApproved) ∧
  w bothApproved = 1 mod p ∧
  w houseBound = fmul (w houseId) (w bothApproved) ∧
  fmul (w houseBound) 0 = 0 mod p.

(** Witness generation: the inputs are reduced into the field, the
    [<==] lines are run in order and each [===] is asserted ([None]
    when one fails). *)
Definition generateWitness (i : inputs) : option assignment :=
  let a := in_agentApproved i mod p in
  let b := in_bankApproved i mod p in
  let h := in_houseId i mod p in
  let _agentCheck := fmul a (fsub a 1) in
  if negb (_agentCheck =? 0 mod p) then None else
  let _bankCheck := fmul b (fsub b 1) in
  if negb (_bankCheck =? 0 mod p) then None else
  let _bothApproved := fmul a b in
  if negb (_bothApproved =? 1 mod p) then None else
  let _houseBound := fmul h _bothApproved in
  if negb (fmul _houseBound 0 =? 0 mod p) then None else
  Some (λ s,
    match s with
    | agentApproved => a
    | bankApproved => b
    | houseId => h
    | agentCheck => _agentCheck
    | bankCheck => _bankCheck
    | bothApproved => _bothApproved
    | houseBound => _houseBound
    end).

(** The public signals that accompany the proof. *)
Definition publicSignals (w : assignment) : list Z :=
  map w publicInputs.
End Field.

(** The order of the scalar field of BN254, the curve of the verifier. *)
Definition bn254_r : Z :=
  21888242871839275222246405745257275088548364400416034343698204186575808495617.

End HouseApproval.

(** * Derived views of the two contracts *)

Module GovernanceViews.
Import HouseTokenizingGovernance.

(** [_checkFullApproval] on a record. *)
Definition closeRecord (s : ApprovalState) : ApprovalState :=
  if allApproved s && negb (fullyApproved s) then set_fullyApproved true s else s.

(** Whether an approve transaction passes its two guards. *)
Definition enabled (c : contract) (t : tx) : bool :=
  bool_decide (msg_sender t = roleAddress (tx_role t) c)
  && negb (roleFlag (tx_role t) (approvalsAt c (tx_houseId t))).

(** Two registries that agree on the role addresses and on one asset's
    record. *)
Definition agree_on (houseId : uint256) (c1 c2 : contract) : Prop :=
  (∀ r, roleAddress r c1 = roleAddress r c2) ∧
  approvalsAt c1 houseId = approvalsAt c2 houseId.

End GovernanceViews.

Module HouseTokenViews.
Import HouseToken.

(** The storage after [value] units of token [id] have moved from [from]
    to [to]: the two writes of one round of [_update]. *)
Definition moveBalance (from to : address) (id value : uint256)
    (c : contract) : contract :=
  let c1 := set_balance id from (balanceOf c from id - value) c in
  set_balance id to (balanceOf c1 to id + value) c1.

(** The storage right before the receiver hook of a mint runs. *)
Definition mintedTo (houseId : uint256) (recipient : address) (c : contract)
    : contract :=
  set_balance houseId recipient (balanceOf c recipient houseId + 1)
    (set_minted houseId true c).

Definition isMintEvent (e : event) : bool :=
  match e with
  | HouseTokenMinted _ _ _ => true
  | _ => false
  end.

Definition isMintNotice (houseId : uint256) (e : event) : bool :=
  match e with
  | HouseTokenMinted h _ _ => bool_decide (h = houseId)
  | _ => false
  end.

Definition isMintOf (houseId : uint256) (t : tx) : bool :=
  match msg_call t with
  | MintHouseToken h _ _ _ _ _ => bool_decide (h = houseId)
  | _ => false
  end.

(** Number of HouseTokenMinted events of an asset among events, and of
    mintHouseToken calls for an asset among calls. *)
Definition mintNotices (houseId : uint256) (l : list event) : nat :=
  length (filter (λ e, isMintNotice houseId e = true) l).

Definition mintCalls (houseId : uint256) (l : list tx) : nat :=
  length (filter (λ t, isMintOf houseId t = true) l).

(** One token per minted asset, held by one non-zero account; none of an
    asset that is not minted. *)
Definition one_token (c : contract) : Prop :=
  ∀ id,
    if isMinted c id
    then ∃ holder, holder ≠ 0 ∧ balanceOf c holder id = 1 ∧
                   ∀ account, account ≠ holder → balanceOf c account id = 0
    else ∀ account, balanceOf c account id = 0.

(** A relation between the state before a piece of code, the entries it
    adds to the trace, and the state after it. *)
Abbreviation relation E := (chain E → list item → chain E → Prop).

(** A function body that ends normally extends the trace and relates the
    states around it. *)
Definition respects {E A} (R : relation E) (m : fn E A) : Prop :=
  ∀ st trace a st' trace',
    m st trace = Done (a, st', trace') →
    ∃ l, trace' = trace ++ l ∧ R st l st'.

(** What a relation needs so that every call into the contract, with all
    the calls nested in it, satisfies it: it composes; it holds for writes
    outside HouseToken, for writes that leave verifier, flags and balances
    alone, for a move of balance between two accounts, for the events other
    than HouseTokenMinted and for the mark of a call other than
    mintHouseToken; and it holds for a whole mintHouseToken call once it
    holds for what the receiver hook did. *)
Record law {E} (W : world E) (R : relation E) : Prop := mkLaw {
  law_refl : ∀ st, R st [] st;
  law_trans : ∀ st l1 st1 l2 st2,
    R st l1 st1 → R st1 l2 st2 → R st (l1 ++ l2) st2;
  law_env : ∀ st e, R st [] (mkChain (token st) e);
  law_frame : ∀ st c,
    verifier c = verifier (token st) → minted c = minted (token st) →
    _balances c = _balances (token st) →
    R st [] (mkChain c (env st));
  law_move : ∀ st (from to : address) (id value : uint256),
    from ≠ 0 → to ≠ 0 → value ≤ balanceOf (token st) from id →
    R st [] (mkChain (moveBalance from to id value (token st)) (env st));
  law_event : ∀ st e, isMintEvent e = false → R st [Log e] st;
  law_called : ∀ st t, is_mint t = false → R st [Called t] st;
  law_mint : ∀ st sender houseId _pA _pB _pC _pubSignals recipient l st2,
    isMinted (token st) houseId = false →
    _pubSignals !!! 0%fin = houseId →
    verifyProof W st (verifier (token st)) _pA _pB _pC _pubSignals = Done true →
    recipient ≠ 0 →
    R (mkChain (mintedTo houseId recipient (token st)) (env st)) l st2 →
    R st
      (Called (mkTx sender
                 (MintHouseToken houseId _pA _pB _pC _pubSignals recipient))
       :: Log (TransferSingle sender 0 recipient houseId 1)
       :: l ++ [Log (HouseTokenMinted houseId recipient
                       (keccak256 W (abi_encode _pA _pB _pC)))])
      st2
}.

(** The four relations used below. *)

(** The verifier stays and no flag is cleared. *)
Definition grows {E} : relation E :=
  λ st _ st',
    verifier (token st') = verifier (token st) ∧
    ∀ id, isMinted (token st) id = true → isMinted (token st') id = true.

(** Every flag set on the way has an accepted mintHouseToken call for its
    asset among the calls of the trace. *)
Definition accounted {E} (W : world E) : relation E :=
  λ st l st',
    verifier (token st') = verifier (token st) ∧
    ∀ id, isMinted (token st') id = true →
          isMinted (token st) id = true ∨
          ∃ t, t ∈ calls l ∧ acceptedMint W (verifier (token st)) id t.

(** The trace holds one HouseTokenMinted event and one mintHouseToken call
    for an asset exactly when the asset's flag went from false to true. *)
Definition counted {E} (houseId : uint256) : relation E :=
  λ st l st',
    (mintNotices houseId (events l) + b2n (isMinted (token st) houseId))%nat
    = b2n (isMinted (token st') houseId) ∧
    (mintCalls houseId (calls l) + b2n (isMinted (token st) houseId))%nat
    = b2n (isMinted (token st') houseId).

(** The supply invariant is kept. *)
Definition supplied {E} : relation E :=
  λ st _ st', one_token (token st) → one_token (token st').

End HouseTokenViews.

(** * The end-to-end test flow *)

Module TestFlow.
Import HouseTokenizingGovernance.

(** How the on-chain part of [main] ends: a contract call that throws while
    encoding [HOUSE_ID] as a uint256, the early exit when the token is
    already minted, an approve transaction that reverted (the awaited call
    throws and [main] fails), the failed check of the fourth value of
    getApprovalState, or the hand-over to the wait for the relayer. *)
Inductive verdict : Type :=
  | EncodingFailed
  | AlreadyMintedPassed
  | StepFailed (n : nat) (e : error)
  | NotFullyApproved
  | AwaitingMint.

(** What the ABI encoder accepts for a uint256 argument. *)
Definition encodable (v : Z) : bool :=
  ((0 <=? v) && (v <=? Z.of_N MAX_UINT256))%Z.

(** [main] from the read of [minted] to the call of [waitForMint], run
    against the registry with no foreign transaction in between.
    [HOUSE_ID] is the BigInt read from the environment, any integer; the
    first call that takes it, the read of [minted], throws when it does not
    fit a uint256.  The three signers are the addresses of the wallets
    built from the configured keys. *)
Definition approvalPhase (token : HouseToken.contract)
    (agentSigner bankSigner housingSigner : address) (HOUSE_ID : Z)
    (gov : contract) : contract * verdict :=
  if negb (encodable HOUSE_ID) then (gov, EncodingFailed) else
  let houseId := Z.to_N HOUSE_ID in
  if HouseToken.isMinted token houseId then (gov, AlreadyMintedPassed) else
  match step gov (mkTx agentSigner Agent houseId) with
  | (gov1, Failure e) => (gov1, StepFailed 1 e)
  | (gov1, Success _) =>
      match step gov1 (mkTx bankSigner Bank houseId) with
      | (gov2, Failure e) => (gov2, StepFailed 2 e)
      | (gov2, Success _) =>
          match step gov2 (mkTx housingSigner HousingDept houseId) with
          | (gov3, Failure e) => (gov3, StepFailed 3 e)
          | (gov3, Success _) =>
              let '(ag, bk, hd, full) := getApprovalState gov3 houseId in
              if negb full then (gov3, NotFullyApproved)
              else (gov3, AwaitingMint)
          end
      end
  end.

End TestFlow.

(** * The deployment record *)

Module DeploymentRecord.

(** A JSON value of the record: a string, or any other value kept as its
    text. *)
Inductive json : Type :=
  | JString (s : string)
  | JOther (text : string).

(** The object stored in [.deployed.json], by key.  The file holds the
    JSON text of the object; parsing what was written gives the object
    back. *)
Abbreviation record := (gmap string json).

(** deploy.ts, step 3: the object written by the public-chain script, from
    the file as it finds it ([None] when it does not exist). *)
Definition persistPublic (file : option record)
    (verifierAddress houseTokenAddress now : string) : record :=
  let existing := default ∅ file in
  <["deployedAt" := JString now]>
    (<["houseToken" := JString houseTokenAddress]>
       (<["verifier" := JString verifierAddress]>
          (<["network" := JString "hardhat-localhost-8546"]> existing))).

(** deploy-governance.ts: the object written by the private-chain script. *)
Definition persistGovernance (file : option record) (address rpc : string)
    : record :=
  let deployed := default ∅ file in
  <["quorumRpcUrl" := JString rpc]> (<["governance" := JString address]> deployed).

End DeploymentRecord.

(** * Properties *)

(** ** The execution monad *)

Lemma emitted_cons {Ev} (r : receipt Ev) (rs : list (receipt Ev)) :
  emitted (r :: rs) = logs_of r ++ emitted rs.
Proof. reflexivity. Qed.

Lemma occurrences_app {Ev} `{EqDecision Ev} (e : Ev) (l1 l2 : list Ev) :
  occurrences e (l1 ++ l2) = (occurrences e l1 + occurrences e l2)%nat.
Proof. unfold occurrences. by rewrite filter_app, length_app. Qed.

(** A reverted transaction leaves the storage as it found it. *)
Lemma transact_failure {St Ev} (body : @exec St Ev unit) s s' e :
  transact body s = (s', Failure e) → s' = s.
Proof.
  unfold transact. destruct (body s []) as [[[[] s1] l1]|e1]; congruence.
Qed.

(** An observation that never goes back to [false] goes to [true] at most
    once. *)
Lemma flips_monotone {St T R} (step : St → T → St * R) (f : St → bool) :
  (∀ s t, f s = true → f (step s t).1 = true) →
  ∀ ts s, (flips step f s ts ≤ 1)%nat ∧ (f s = true → flips step f s ts = 0%nat).
Proof.
  intros Hmono ts. induction ts as [|t ts IH]; intros s; simpl; [lia|].
  destruct (IH (step s t).1) as [Hle Hzero].
  destruct (f s) eqn:Hs; simpl.
  - rewrite Hzero by auto. lia.
  - destruct (f (step s t).1) eqn:Hs'; [rewrite Hzero by done|]; lia.
Qed.

(** Unfolds the combinators of the monad. *)
Ltac exec_unfold :=
  unfold transact, bind, sload, sstore, emit, revert, require, ret in *.

(** ** The approval registry *)

Module GovernanceProperties.
Import HouseTokenizingGovernance.

Lemma approvalsAt_update_eq c houseId f :
  approvalsAt (updateApprovals houseId f c) houseId = f (approvalsAt c houseId).
Proof. unfold approvalsAt, updateApprovals; simpl. by rewrite lookup_insert_eq. Qed.

Lemma approvalsAt_update_ne c houseId houseId' f :
  houseId ≠ houseId' →
  approvalsAt (updateApprovals houseId f c) houseId' = approvalsAt c houseId'.
Proof.
  intros Hne. unfold approvalsAt, updateApprovals; simpl.
  by rewrite lookup_insert_ne.
Qed.

(** The three outcomes of an approve call. *)
Lemma step_unauthorized c sender r houseId :
  sender ≠ roleAddress r c →
  step c (mkTx sender r houseId) = (c, Failure (notAuthorized r)).
Proof.
  intros Hne. unfold step; destruct r; simpl in *;
    unfold approveAsAgent, approveAsBank, approveAsHousingDept,
      onlyAgent, onlyBank, onlyHousingDept; exec_unfold;
    by rewrite bool_decide_eq_false_2.
Qed.

Lemma step_repeat c r houseId :
  roleFlag r (approvalsAt c houseId) = true →
  step c (mkTx (roleAddress r c) r houseId) = (c, Failure (alreadyApproved r)).
Proof.
  intros Hflag. unfold step; destruct r; simpl in *;
    unfold approveAsAgent, approveAsBank, approveAsHousingDept,
      onlyAgent, onlyBank, onlyHousingDept; exec_unfold;
    rewrite bool_decide_eq_true_2 by done; by rewrite Hflag.
Qed.

Lemma step_fresh c r houseId :
  roleFlag r (approvalsAt c houseId) = false →
  step c (mkTx (roleAddress r c) r houseId)
  = (approved r houseId c,
     Success (approvalLog r (roleAddress r c) houseId c)).
Proof.
  intros Hflag. unfold step, approved, approvalLog; destruct r; simpl in *;
    unfold approveAsAgent, approveAsBank, approveAsHousingDept,
      onlyAgent, onlyBank, onlyHousingDept, _checkFullApproval; exec_unfold;
    rewrite bool_decide_eq_true_2 by done; rewrite Hflag; simpl;
    rewrite approvalsAt_update_eq; unfold allApproved;
    by destruct (_ && _).
Qed.

Lemma step_cases c t :
  (msg_sender t ≠ roleAddress (tx_role t) c ∧
   step c t = (c, Failure (notAuthorized (tx_role t)))) ∨
  (msg_sender t = roleAddress (tx_role t) c ∧
   roleFlag (tx_role t) (approvalsAt c (tx_houseId t)) = true ∧
   step c t = (c, Failure (alreadyApproved (tx_role t)))) ∨
  (msg_sender t = roleAddress (tx_role t) c ∧
   roleFlag (tx_role t) (approvalsAt c (tx_houseId t)) = false ∧
   step c t = (approved (tx_role t) (tx_houseId t) c,
               Success (approvalLog (tx_role t) (msg_sender t) (tx_houseId t) c))).
Proof.
  destruct t as [sender r houseId]; simpl.
  destruct (decide (sender = roleAddress r c)) as [->|Hne].
  - right. destruct (roleFlag r (approvalsAt c houseId)) eqn:Hflag.
    + left. eauto using step_repeat.
    + right. eauto using step_fresh.
  - left. eauto using step_unauthorized.
Qed.

(** What a successful approval writes. *)
Lemma approved_at r houseId c :
  approvalsAt (approved r houseId c) houseId
  = let s1 := set_roleFlag r true (approvalsAt c houseId) in
    if allApproved s1 && negb (fullyApproved s1)
    then set_fullyApproved true s1 else s1.
Proof.
  unfold approved; simpl. rewrite approvalsAt_update_eq.
  destruct (_ && _); by rewrite ?approvalsAt_update_eq.
Qed.

Lemma approved_lookup_ne r houseId houseId' c :
  houseId ≠ houseId' →
  approvals (approved r houseId c) !! houseId' = approvals c !! houseId'.
Proof.
  intros Hne. unfold approved; simpl.
  destruct (_ && _); simpl; by rewrite ?lookup_insert_ne.
Qed.

Lemma approved_at_ne r houseId houseId' c :
  houseId ≠ houseId' →
  approvalsAt (approved r houseId c) houseId' = approvalsAt c houseId'.
Proof. intros Hne. unfold approvalsAt. by rewrite approved_lookup_ne. Qed.

Lemma approved_roles r houseId c :
  agent (approved r houseId c) = agent c ∧
  bank (approved r houseId c) = bank c ∧
  housingDept (approved r houseId c) = housingDept c.
Proof. unfold approved; simpl. by destruct (_ && _). Qed.

(** The immutables survive every transaction. *)
Lemma step_roles c t r :
  roleAddress r (step c t).1 = roleAddress r c.
Proof.
  destruct (step_cases c t) as [[_ ->]|[(_ & _ & ->)|(_ & _ & ->)]]; simpl;
    try done.
  destruct (approved_roles (tx_role t) (tx_houseId t) c) as (? & ? & ?).
  by destruct r.
Qed.

Lemma run_roles ts c r :
  roleAddress r (run c ts).1 = roleAddress r c.
Proof.
  revert c. induction ts as [|t ts IH]; intros c; simpl; [done|].
  pose proof (step_roles c t r) as Hstep.
  destruct (step c t) as [c1 r1]; simpl in *.
  specialize (IH c1). destruct (run c1 ts) as [c2 rs]; simpl in *. congruence.
Qed.

(** Unfolding [run] one transaction at a time. *)
Lemma registry_run_cons c t ts :
  run c (t :: ts)
  = ((run (step c t).1 ts).1, (step c t).2 :: (run (step c t).1 ts).2).
Proof. simpl. destruct (step c t) as [c1 r]; simpl. by destruct (run c1 ts). Qed.

(** The three roles approve asset 42 in the order Agent, Bank,
    HousingDept: the view reads four [true]s and the aggregation notice is
    the last event of the log. *)
Example approvals_in_order :
  let r := run (constructor 1 2 3)
             [mkTx 1 Agent 42; mkTx 2 Bank 42; mkTx 3 HousingDept 42] in
  getApprovalState r.1 42 = (true, true, true, true) ∧
  emitted r.2
  = [HouseApproved 42 1 "Agent"; HouseApproved 42 2 "Bank";
     HouseApproved 42 3 "HousingDept"; HouseFullyApproved 42].
Proof. vm_compute. done. Qed.

(** *** Monotonicity of the four flags *)

Lemma step_roleFlag_mono c t houseId r :
  roleFlag r (approvalsAt c houseId) = true →
  roleFlag r (approvalsAt (step c t).1 houseId) = true.
Proof.
  intros Hflag.
  destruct (step_cases c t) as [[_ ->]|[(_ & _ & ->)|(_ & _ & ->)]]; simpl;
    try done.
  destruct (decide (tx_houseId t = houseId)) as [->|Hne].
  - rewrite approved_at; simpl.
    destruct (tx_role t), r, (approvalsAt c houseId) as [[] [] [] []];
      simpl in *; done.
  - by rewrite approved_at_ne.
Qed.

Lemma step_fullyApproved_mono c t houseId :
  fullyApproved (approvalsAt c houseId) = true →
  fullyApproved (approvalsAt (step c t).1 houseId) = true.
Proof.
  intros Hflag.
  destruct (step_cases c t) as [[_ ->]|[(_ & _ & ->)|(_ & _ & ->)]]; simpl;
    try done.
  destruct (decide (tx_houseId t = houseId)) as [->|Hne].
  - rewrite approved_at; simpl.
    destruct (tx_role t), (approvalsAt c houseId) as [[] [] [] []];
      simpl in *; done.
  - by rewrite approved_at_ne.
Qed.

Lemma run_mono (f : contract → bool) :
  (∀ c t, f c = true → f (step c t).1 = true) →
  ∀ ts c, f c = true → f (run c ts).1 = true.
Proof.
  intros Hstep ts. induction ts as [|t ts IH]; intros c Hc; [done|].
  rewrite registry_run_cons; simpl. auto.
Qed.

(** *** The aggregation invariant *)

Lemma constructor_consistent _agent _bank _housingDept :
  consistent (constructor _agent _bank _housingDept).
Proof. intros houseId. unfold approvalsAt; simpl. by rewrite lookup_empty. Qed.

Lemma step_consistent c t :
  consistent c → consistent (step c t).1.
Proof.
  intros Hc houseId.
  destruct (step_cases c t) as [[_ ->]|[(_ & _ & ->)|(_ & _ & ->)]]; simpl;
    try apply Hc.
  destruct (decide (tx_houseId t = houseId)) as [->|Hne].
  - specialize (Hc houseId). unfold aggregated_ok in *.
    rewrite approved_at; simpl.
    destruct (tx_role t), (approvalsAt c houseId) as [[] [] [] []];
      simpl in *; done.
  - rewrite approved_at_ne by done. apply Hc.
Qed.

Lemma run_consistent ts c :
  consistent c → consistent (run c ts).1.
Proof.
  revert c. induction ts as [|t ts IH]; intros c Hc; [done|].
  rewrite registry_run_cons; simpl. auto using step_consistent.
Qed.

(** *** The aggregation notice *)

Lemma occurrences_cons (e x : event) (l : list event) :
  occurrences e (x :: l)
  = ((if decide (x = e) then 1 else 0) + occurrences e l)%nat.
Proof. unfold occurrences. rewrite filter_cons. by case_decide. Qed.

(** A transaction emits the notice for [houseId] exactly when it takes
    [fullyApproved] of that asset from [false] to [true]. *)
Lemma step_notice c t houseId :
  (occurrences (HouseFullyApproved houseId) (logs_of (step c t).2)
   + b2n (fullyApproved (approvalsAt c houseId)))%nat
  = b2n (fullyApproved (approvalsAt (step c t).1 houseId)).
Proof.
  destruct (step_cases c t) as [[_ ->]|[(_ & _ & ->)|(_ & _ & ->)]]; simpl;
    try done.
  unfold approvalLog. rewrite occurrences_cons.
  rewrite decide_False by done; simpl.
  destruct (decide (tx_houseId t = houseId)) as [->|Hne].
  - rewrite approved_at; simpl.
    destruct (allApproved _ && negb _) eqn:Hfire.
    + rewrite occurrences_cons, decide_True by done.
      apply andb_prop in Hfire as [_ Hfull].
      destruct (tx_role t), (approvalsAt c houseId) as [? ? ? []]; done.
    + apply andb_false_iff in Hfire.
      destruct (tx_role t), (approvalsAt c houseId) as [[] [] [] []];
        simpl in *; try done; by destruct Hfire.
  - rewrite approved_at_ne by done.
    destruct (allApproved _ && negb _); [|done].
    rewrite occurrences_cons, decide_False by congruence. done.
Qed.

Lemma run_notice ts c houseId :
  (occurrences (HouseFullyApproved houseId) (emitted (run c ts).2)
   + b2n (fullyApproved (approvalsAt c houseId)))%nat
  = b2n (fullyApproved (approvalsAt (run c ts).1 houseId)).
Proof.
  revert c. induction ts as [|t ts IH]; intros c; [done|].
  rewrite registry_run_cons; simpl. rewrite emitted_cons, occurrences_app.
  rewrite <- IH, <- (step_notice c t houseId). lia.
Qed.

Lemma elem_of_occurrences (e : event) (l : list event) :
  e ∈ l ↔ (0 < occurrences e l)%nat.
Proof.
  unfold occurrences. induction l as [|x l IH].
  - split; [by intros ?%elem_of_nil|simpl; lia].
  - rewrite elem_of_cons, filter_cons. case_decide; simpl.
    + split; [lia|auto].
    + rewrite IH. split; [intros [->|?]; done|auto].
Qed.

(** Once the three flags of an asset are set, every approve call for it
    reverts. *)
Lemma step_after_all c t :
  allApproved (approvalsAt c (tx_houseId t)) = true →
  ∃ e, step c t = (c, Failure e).
Proof.
  intros Hall.
  destruct (step_cases c t) as [[_ ->]|[(_ & _ & ->)|(_ & Hflag & _)]]; eauto.
  exfalso. unfold allApproved in Hall.
  destruct (tx_role t), (approvalsAt c (tx_houseId t)) as [[] [] [] ?];
    simpl in *; done.
Qed.

(** C4. The HouseFullyApproved notice of an asset is emitted exactly once
    over the lifetime of the registry, whatever the order of the calls:
    after any sequence of transactions the log holds it once when the
    three role flags of the asset are set and not at all otherwise; a
    transaction emits it exactly when it is the one that completes the
    three flags; and once they are complete every further approve call
    for the asset reverts and leaves the registry as it was. *)
Theorem fully_approved_fires_exactly_once
    (_agent _bank _housingDept : address) (ts : list tx) (houseId : uint256) :
  let c := (run (constructor _agent _bank _housingDept) ts).1 in
  let rs := (run (constructor _agent _bank _housingDept) ts).2 in
  occurrences (HouseFullyApproved houseId) (emitted rs)
    = (if allApproved (approvalsAt c houseId) then 1 else 0)%nat ∧
  (∀ t, HouseFullyApproved houseId ∈ logs_of (step c t).2 ↔
        allApproved (approvalsAt c houseId) = false ∧
        allApproved (approvalsAt (step c t).1 houseId) = true) ∧
  (∀ t, allApproved (approvalsAt c houseId) = true →
        tx_houseId t = houseId → ∃ e, step c t = (c, Failure e)).
Proof.
  intros c rs.
  assert (Hc : consistent c)
    by apply run_consistent, constructor_consistent.
  split; [|split].
  - pose proof (run_notice ts (constructor _agent _bank _housingDept) houseId)
      as Hrun.
    fold c rs in Hrun. rewrite (Hc houseId) in Hrun.
    unfold approvalsAt at 1 in Hrun; simpl in Hrun.
    rewrite lookup_empty in Hrun; simpl in Hrun.
    destruct (allApproved _); simpl in Hrun; lia.
  - intros t. rewrite elem_of_occurrences.
    pose proof (step_notice c t houseId) as Hstep.
    pose proof (step_consistent c t Hc houseId) as Hc'.
    rewrite Hc', (Hc houseId) in Hstep.
    pose proof (step_roleFlag_mono c t houseId) as Hmono.
    destruct (allApproved (approvalsAt c houseId)) eqn:Hall;
      destruct (allApproved (approvalsAt (step c t).1 houseId)) eqn:Hall';
      simpl in Hstep; split; try lia; try (intros []; done); try done.
  - intros t Hall <-. by apply step_after_all.
Qed.

Lemma fully_approved_fires_exactly_once_witness :
  let ts := [mkTx 3 HousingDept 42; mkTx 1 Agent 42; mkTx 1 Agent 42;
             mkTx 2 Bank 42] in
  let c := (run (constructor 1 2 3) ts).1 in
  occurrences (HouseFullyApproved 42) (emitted (run (constructor 1 2 3) ts).2)
    = 1%nat ∧
  ∃ e, step c (mkTx 2 Bank 42) = (c, Failure e).
Proof.
  intros ts c.
  destruct (fully_approved_fires_exactly_once 1 2 3 ts 42) as (Hcount & _ & Hlater).
  split.
  - exact Hcount.
  - apply Hlater; reflexivity.
Defined.

(** C5. After every sequence of registry transactions [fullyApproved]
    of an asset equals the conjunction of its three role flags; each of
    the four flags, once true, stays true under any further transactions;
    and along any sequence each flag goes from false to true at most
    once. *)
Theorem aggregated_is_conjunction_and_monotone
    (_agent _bank _housingDept : address) (ts : list tx) (houseId : uint256) :
  let c0 := constructor _agent _bank _housingDept in
  let c := (run c0 ts).1 in
  fullyApproved (approvalsAt c houseId)
    = agentApproved (approvalsAt c houseId)
      && bankApproved (approvalsAt c houseId)
      && housingDeptApproved (approvalsAt c houseId) ∧
  (∀ ts' r, roleFlag r (approvalsAt c houseId) = true →
            roleFlag r (approvalsAt (run c ts').1 houseId) = true) ∧
  (∀ ts', fullyApproved (approvalsAt c houseId) = true →
          fullyApproved (approvalsAt (run c ts').1 houseId) = true) ∧
  (∀ r, (flips step (λ c, roleFlag r (approvalsAt c houseId)) c0 ts ≤ 1)%nat) ∧
  (flips step (λ c, fullyApproved (approvalsAt c houseId)) c0 ts ≤ 1)%nat.
Proof.
  intros c0 c. repeat split.
  - apply (run_consistent ts c0 (constructor_consistent _ _ _) houseId).
  - intros ts' r.
    apply (run_mono (λ c, roleFlag r (approvalsAt c houseId))).
    intros c1 t. apply step_roleFlag_mono.
  - intros ts'.
    apply (run_mono (λ c, fullyApproved (approvalsAt c houseId))).
    intros c1 t. apply step_fullyApproved_mono.
  - intros r. apply flips_monotone.
    intros c1 t. apply step_roleFlag_mono.
  - apply flips_monotone. intros c1 t. apply step_fullyApproved_mono.
Qed.

Lemma aggregated_is_conjunction_and_monotone_witness :
  let c := (run (constructor 1 2 3) [mkTx 1 Agent 42; mkTx 2 Bank 42]).1 in
  fullyApproved (approvalsAt c 42) = false ∧
  agentApproved
    (approvalsAt (run c [mkTx 3 HousingDept 42; mkTx 1 Agent 42]).1 42) = true.
Proof.
  intros c. subst c.
  destruct (aggregated_is_conjunction_and_monotone 1 2 3
              [mkTx 1 Agent 42; mkTx 2 Bank 42] 42) as (Hagg & Hmono & _).
  split.
  - rewrite Hagg. reflexivity.
  - apply (Hmono [mkTx 3 HousingDept 42; mkTx 1 Agent 42] Agent). reflexivity.
Defined.

(** C6. When a role's flag for an asset is already set, a repeat call of
    that role's approve function by the authorised caller reverts with
    that role's "already approved" error, the contract (immutables and
    every approval record) is exactly what it was, and nothing is
    logged. *)
Theorem repeat_approval_reverts_unchanged
    (c : contract) (r : role) (houseId : uint256) :
  roleFlag r (approvalsAt c houseId) = true →
  step c (mkTx (roleAddress r c) r houseId) = (c, Failure (alreadyApproved r)) ∧
  logs_of (step c (mkTx (roleAddress r c) r houseId)).2 = [].
Proof.
  intros Hflag. rewrite step_repeat by done. done.
Qed.

Lemma repeat_approval_reverts_unchanged_witness :
  let c := (run (constructor 1 2 3) [mkTx 2 Bank 7]).1 in
  step c (mkTx 2 Bank 7) = (c, Failure (Error "Bank already approved")).
Proof.
  intros c.
  apply (repeat_approval_reverts_unchanged c Bank 7). reflexivity.
Defined.

(** C7. An approve call whose sender is not the address given to the
    constructor for that role reverts with that role's "Not ..." error
    and leaves the contract unchanged, after any history; and no
    sequence of transactions changes any of the three role addresses. *)
Theorem unauthorized_reverts_and_roles_immutable
    (_agent _bank _housingDept : address) (ts : list tx)
    (sender : address) (r : role) (houseId : uint256) :
  let c0 := constructor _agent _bank _housingDept in
  let c := (run c0 ts).1 in
  (agent c = _agent ∧ bank c = _bank ∧ housingDept c = _housingDept) ∧
  (sender ≠ roleAddress r c0 →
   step c (mkTx sender r houseId) = (c, Failure (notAuthorized r))).
Proof.
  intros c0 c. split.
  - split; [|split].
    + apply (run_roles ts c0 Agent).
    + apply (run_roles ts c0 Bank).
    + apply (run_roles ts c0 HousingDept).
  - intros Hne. apply step_unauthorized. unfold c. by rewrite run_roles.
Qed.

Lemma unauthorized_reverts_and_roles_immutable_witness :
  let c := (run (constructor 1 2 3) [mkTx 1 Agent 42]).1 in
  step c (mkTx 1 Bank 42) = (c, Failure (Error "Not Bank")).
Proof.
  intros c.
  apply (unauthorized_reverts_and_roles_immutable 1 2 3 [mkTx 1 Agent 42]
           1 Bank 42).
  simpl. lia.
Defined.

End GovernanceProperties.

(** ** The mint gate *)

Module MintGateFrames.
Import HouseToken HouseTokenViews.

(** Unfolds the storage accessors of HouseToken and the monad under
    them. *)
Ltac token_unfold :=
  unfold tload, tstore, emitEvent, external in *; exec_unfold.

Lemma balanceOf_set_balance c id account v id' account' :
  balanceOf (set_balance id account v c) account' id'
  = if decide ((id, account) = (id', account')) then v
    else balanceOf c account' id'.
Proof.
  unfold balanceOf, set_balance; simpl. rewrite lookup_insert.
  by case_decide.
Qed.

Lemma isMinted_set_minted c houseId houseId' :
  isMinted (set_minted houseId true c) houseId'
  = if decide (houseId = houseId') then true else isMinted c houseId'.
Proof.
  unfold isMinted, set_minted; simpl. rewrite lookup_insert.
  by case_decide.
Qed.

Lemma isMinted_mintedTo c houseId recipient houseId' :
  isMinted (mintedTo houseId recipient c) houseId'
  = if decide (houseId = houseId') then true else isMinted c houseId'.
Proof. apply isMinted_set_minted. Qed.

Lemma balanceOf_mintedTo c houseId recipient account id :
  balanceOf (mintedTo houseId recipient c) account id
  = if decide ((houseId, recipient) = (id, account))
    then balanceOf c recipient houseId + 1
    else balanceOf c account id.
Proof. unfold mintedTo. by rewrite balanceOf_set_balance. Qed.

(** The balances after a move. *)
Lemma balanceOf_moveBalance (from to : address) (id value : uint256)
    (c : contract) (account : address) (id' : uint256) :
  balanceOf (moveBalance from to id value c) account id'
  = if decide (id' = id ∧ account = to)
    then (if decide (to = from) then balanceOf c from id - value
          else balanceOf c to id) + value
    else if decide (id' = id ∧ account = from)
         then balanceOf c from id - value
         else balanceOf c account id'.
Proof.
  unfold moveBalance. rewrite !balanceOf_set_balance.
  destruct (decide (id' = id ∧ account = to)) as [[-> ->]|Hn1].
  - rewrite decide_True by done.
    destruct (decide (to = from)) as [->|Hn].
    + by rewrite decide_True.
    + by rewrite decide_False by congruence.
  - rewrite decide_False by (intros [= -> ->]; by apply Hn1).
    destruct (decide (id' = id ∧ account = from)) as [[-> ->]|Hn2].
    + by rewrite decide_True.
    + by rewrite decide_False by (intros [= -> ->]; by apply Hn2).
Qed.

(** One round of [_update] between two real accounts either reverts or
    moves the balance. *)
Lemma updateOne_run {E} (from to : address) (id value : uint256)
    (st : chain E) (trace : list item) :
  from ≠ 0 → to ≠ 0 →
  _updateOne from to id value st trace
  = if balanceOf (token st) from id <? value
    then Reverted (ERC1155InsufficientBalance from
                     (balanceOf (token st) from id) value id)
    else if MAX_UINT256
            <? balanceOf (set_balance id from
                            (balanceOf (token st) from id - value) (token st))
                 to id + value
         then Reverted (Panic 17)
         else Done (tt, mkChain (moveBalance from to id value (token st))
                          (env st), trace).
Proof.
  intros Hfrom Hto. unfold _updateOne. token_unfold.
  rewrite !bool_decide_eq_true_2 by done. simpl.
  destruct (balanceOf (token st) from id <? value); [done|]. simpl.
  by destruct (MAX_UINT256 <? _).
Qed.

Section Respecting.
Context {E : Type} (W : world E).
Context (nested : chain E → tx → chain E * receipt item).
Context (R : relation E) (HR : law W R).
Context (Hnested : ∀ st t st' l,
           nested st t = (st', Success l) → R st (Called t :: l) st').
Context (Hfailed : ∀ st t st' e, nested st t = (st', Failure e) → st' = st).

Lemma respects_ret {A} (a : A) : respects R (ret a).
Proof.
  intros st trace a' st' trace' [= <- <- <-]. exists [].
  split; [by rewrite app_nil_r|apply HR].
Qed.

Lemma respects_revert {A} (e : error) :
  respects R (@revert (chain E) item A e).
Proof. by intros st trace a' st' trace' [=]. Qed.

Lemma respects_sload : respects R sload.
Proof.
  intros st trace a' st' trace' [= <- <- <-]. exists [].
  split; [by rewrite app_nil_r|apply HR].
Qed.

Lemma respects_tload : respects R tload.
Proof.
  intros st trace a' st' trace' [= <- <- <-]. exists [].
  split; [by rewrite app_nil_r|apply HR].
Qed.

Lemma respects_external {A} (r : outcome A) : respects R (external r).
Proof. destruct r; [apply respects_ret|apply respects_revert]. Qed.

Lemma respects_emitEvent (e : event) :
  isMintEvent e = false → respects R (emitEvent e).
Proof.
  intros He st trace a' st' trace' [= <- <- <-]. exists [Log e].
  split; [done|by apply HR].
Qed.

Lemma respects_tstore (f : contract → contract) :
  (∀ c, verifier (f c) = verifier c ∧ minted (f c) = minted c ∧
        _balances (f c) = _balances c) →
  respects R (tstore f).
Proof.
  intros Hf st trace a' st' trace' [= <- <- <-]. exists [].
  split; [by rewrite app_nil_r|].
  destruct (Hf (token st)) as (? & ? & ?). by apply HR.
Qed.

Lemma respects_bind {A B} (m : fn E A) (k : A → fn E B) :
  respects R m → (∀ a, respects R (k a)) → respects R (bind m k).
Proof.
  intros Hm Hk st trace b st' trace'. unfold bind.
  destruct (m st trace) as [[[a st1] trace1]|e] eqn:Hrun; [|done].
  intros Hrun'.
  destruct (Hm _ _ _ _ _ Hrun) as (l1 & -> & H1).
  destruct (Hk _ _ _ _ _ _ Hrun') as (l2 & -> & H2).
  exists (l1 ++ l2). split; [by rewrite app_assoc|].
  by eapply (law_trans W R HR).
Qed.

(** Whatever a hook does, it does through calls into the contract. *)
Lemma respects_run_script (s : script E) : respects R (run_script nested s).
Proof.
  induction s as [r|t k IH|k IH|f k IH]; intros st trace a st' trace'; simpl.
  - intros [= <- <- <-]. exists []. split; [by rewrite app_nil_r|apply HR].
  - destruct (nested st t) as [st1 [inner|e]] eqn:Hcall.
    + intros Hrun. destruct (IH _ _ _ _ _ _ Hrun) as (l & -> & Hl).
      exists ((Called t :: inner) ++ l). split; [by rewrite app_assoc|].
      eapply (law_trans W R HR); [|done]. by apply Hnested.
    + apply Hfailed in Hcall as ->. rewrite app_nil_r. apply IH.
  - apply IH.
  - intros Hrun. destruct (IH _ _ _ _ _ Hrun) as (l & -> & Hl).
    exists l. split; [done|].
    change l with ([] ++ l). eapply (law_trans W R HR); [|done].
    apply (law_env W R HR).
Qed.

Lemma respects_acceptanceCheck (to : address) (hook : script E) :
  respects R (acceptanceCheck W nested to hook).
Proof.
  unfold acceptanceCheck.
  apply respects_bind; [apply respects_sload|]. intros st.
  destruct (hasCode W (env st) to); [|apply respects_ret].
  apply respects_bind; [apply respects_run_script|].
  intros []; auto using respects_ret, respects_revert.
Qed.

Lemma respects_updateOne (from to : address) (id value : uint256) :
  from ≠ 0 → to ≠ 0 → respects R (_updateOne from to id value).
Proof.
  intros Hfrom Hto st trace [] st' trace'. rewrite updateOne_run by done.
  destruct (balanceOf (token st) from id <? value) eqn:Hlt; [done|].
  apply N.ltb_ge in Hlt.
  destruct (MAX_UINT256 <? _); [done|].
  intros [= <- <-]. exists []. split; [by rewrite app_nil_r|].
  by apply (law_move W R HR).
Qed.

Lemma respects_updateLoop (from to : address) (ids values : list N) :
  from ≠ 0 → to ≠ 0 → respects R (_updateLoop from to ids values).
Proof.
  intros Hfrom Hto. revert values.
  induction ids as [|id ids IH]; intros [|value values]; simpl;
    try apply respects_ret.
  apply respects_bind; [by apply respects_updateOne|auto].
Qed.

Lemma respects_updateWithAcceptanceCheck (sender from to : address)
    (ids values : list N) (data : string) :
  from ≠ 0 → to ≠ 0 →
  respects R (_updateWithAcceptanceCheck W nested sender from to ids values data).
Proof.
  intros Hfrom Hto. unfold _updateWithAcceptanceCheck, _update.
  apply respects_bind.
  - case_bool_decide; [apply respects_revert|].
    apply respects_bind; [by apply respects_updateLoop|].
    intros _. repeat case_match; by apply respects_emitEvent.
  - intros _. rewrite bool_decide_eq_true_2 by done.
    repeat case_match; apply respects_acceptanceCheck.
Qed.

Lemma respects_onlyOwner {A} (sender : address) (body : fn E A) :
  respects R body → respects R (onlyOwner sender body).
Proof.
  intros Hbody. unfold onlyOwner.
  apply respects_bind; [apply respects_tload|]. intros c.
  case_bool_decide; [apply respects_revert|done].
Qed.

Lemma respects_transferOwnership (newOwner : address) :
  respects R (_transferOwnership newOwner).
Proof.
  unfold _transferOwnership.
  apply respects_bind; [apply respects_tload|]. intros c.
  apply respects_bind; [by apply respects_tstore|].
  intros _. by apply respects_emitEvent.
Qed.

(** The body of every entry point other than [mintHouseToken]. *)
Lemma respects_dispatch (t : tx) :
  is_mint t = false → respects R (dispatch W nested t).
Proof.
  destruct t as [sender []]; unfold is_mint, dispatch; simpl; try done;
    intros _.
  - by apply respects_onlyOwner, respects_tstore.
  - unfold safeTransferFrom, _safeTransferFrom.
    apply respects_bind; [apply respects_tload|]. intros c.
    destruct (_ && _); [apply respects_revert|].
    case_bool_decide as Hto; [apply respects_revert|].
    case_bool_decide as Hfrom; [apply respects_revert|].
    by apply respects_updateWithAcceptanceCheck.
  - unfold safeBatchTransferFrom.
    apply respects_bind; [apply respects_tload|]. intros c.
    destruct (_ && _); [apply respects_revert|].
    case_bool_decide as Hto; [apply respects_revert|].
    case_bool_decide as Hfrom; [apply respects_revert|].
    by apply respects_updateWithAcceptanceCheck.
  - unfold setApprovalForAll. case_bool_decide; [apply respects_revert|].
    apply respects_bind; [by apply respects_tstore|].
    intros _. by apply respects_emitEvent.
  - apply respects_onlyOwner. case_bool_decide; [apply respects_revert|].
    apply respects_transferOwnership.
  - apply respects_onlyOwner, respects_transferOwnership.
Qed.

End Respecting.

(** A hook that made no successful call back left no entry in the trace
    and HouseToken's storage as it was. *)
Lemma run_script_quiet {E} (nested : chain E → tx → chain E * receipt item)
    (s : script E) (st st' : chain E) (trace trace' : list item) (r : response) :
  (∀ st t st' e, nested st t = (st', Failure e) → st' = st) →
  run_script nested s st trace = Done (r, st', trace') →
  ∃ l, trace' = trace ++ l ∧ (calls l = [] → l = [] ∧ token st' = token st).
Proof.
  intros Hfailed. revert st trace.
  induction s as [r0|t k IH|k IH|f k IH]; intros st trace; simpl.
  - intros [= <- <- <-]. exists []. by rewrite app_nil_r.
  - destruct (nested st t) as [st1 [inner|e]] eqn:Hcall.
    + intros Hrun. destruct (IH _ _ _ Hrun) as (l & -> & _).
      exists ((Called t :: inner) ++ l). by rewrite app_assoc.
    + apply Hfailed in Hcall as ->. rewrite app_nil_r. apply IH.
  - apply IH.
  - intros Hrun. destruct (IH _ _ Hrun) as (l & -> & Hl). by exists l.
Qed.

Lemma acceptanceCheck_quiet {E} (W : world E)
    (nested : chain E → tx → chain E * receipt item)
    (to : address) (hook : script E) (st st' : chain E)
    (trace trace' : list item) :
  (∀ st t st' e, nested st t = (st', Failure e) → st' = st) →
  acceptanceCheck W nested to hook st trace = Done (tt, st', trace') →
  ∃ l, trace' = trace ++ l ∧ (calls l = [] → l = [] ∧ token st' = token st).
Proof.
  intros Hfailed. unfold acceptanceCheck. token_unfold.
  destruct (hasCode W (env st) to).
  - destruct (run_script nested hook st trace) as [[[r st1] trace1]|e] eqn:Hrun;
      [|done].
    destruct (run_script_quiet nested hook _ _ _ _ _ Hfailed Hrun)
      as (l & -> & Hl).
    destruct r; intros [= <- <-]. by exists l.
  - intros [= <- <-]. exists []. by rewrite app_nil_r.
Qed.

(** *** [mintHouseToken], check by check *)

Section Mint.
Context {E : Type} (W : world E).
Context (nested : chain E → tx → chain E * receipt item).

(** The run of [mintHouseToken]: the four checks in source order, the two
    writes and the transfer event, then the receiver's hook on the written
    state, and the HouseTokenMinted event after the hook has accepted. *)
Lemma mint_run (sender : address) (houseId : uint256)
    (_pA : uint_2) (_pB : uint_2_2) (_pC : uint_2) (_pubSignals : uint_1)
    (recipient : address) (st : chain E) (trace : list item) :
  mintHouseToken W nested sender houseId _pA _pB _pC _pubSignals recipient
    st trace
  = if isMinted (token st) houseId then Reverted (AlreadyMinted houseId)
    else if negb (bool_decide (_pubSignals !!! 0%fin = houseId))
    then Reverted (Error "HouseToken: houseId mismatch")
    else match verifyProof W st (verifier (token st)) _pA _pB _pC _pubSignals with
         | Reverted e => Reverted e
         | Done false => Reverted InvalidProof
         | Done true =>
             if bool_decide (recipient = 0)
             then Reverted (ERC1155InvalidReceiver 0)
             else if MAX_UINT256 <? balanceOf (token st) recipient houseId + 1
             then Reverted (Panic 17)
             else
               match acceptanceCheck W nested recipient
                       (onERC1155Received W recipient sender 0 houseId 1 "")
                       (mkChain (mintedTo houseId recipient (token st))
                          (env st))
                       (trace ++ [Log (TransferSingle sender 0 recipient
                                         houseId 1)])
               with
               | Done (_, st2, trace2) =>
                   Done (tt, st2,
                         trace2 ++ [Log (HouseTokenMinted houseId recipient
                                           (keccak256 W
                                              (abi_encode _pA _pB _pC)))])
               | Reverted e => Reverted e
               end
         end.
Proof.
  unfold mintHouseToken, _mint, _updateWithAcceptanceCheck, _update; simpl.
  unfold _updateOne. token_unfold.
  destruct (isMinted (token st) houseId); [done|]. simpl.
  case_bool_decide; [|done]. simpl.
  destruct (verifyProof W st (verifier (token st)) _pA _pB _pC _pubSignals)
    as [[]|e]; simpl; try done.
  case_bool_decide as Hrcpt; [done|]. simpl.
  rewrite bool_decide_eq_true_2 by done. simpl.
  change (balanceOf (set_minted houseId true (token st)) recipient houseId)
    with (balanceOf (token st) recipient houseId).
  destruct (MAX_UINT256 <? _); [done|]. simpl.
  fold (mintedTo houseId recipient (token st)).
  by destruct (acceptanceCheck _ _ _ _ _ _) as [[[[] st2] trace2]|e].
Qed.

End Mint.

(** *** Calls, at any depth *)

Section Stepping.
Context {E : Type} (W : world E).

Lemma step_callback (depth : nat) :
  step W depth = step_with W (callback W depth).
Proof. by destruct depth. Qed.

(** A call that reverts leaves the whole state as it was. *)
Lemma step_failed (depth : nat) (st : chain E) (t : tx) (st' : chain E)
    (e : error) :
  step W depth st t = (st', Failure e) → st' = st.
Proof. rewrite step_callback. apply transact_failure. Qed.

Lemma callback_failed (depth : nat) (st : chain E) (t : tx) (st' : chain E)
    (e : error) :
  callback W depth st t = (st', Failure e) → st' = st.
Proof.
  destruct depth; simpl; [by intros [= <-]|apply step_failed].
Qed.

Lemma step_with_respects (nested : chain E → tx → chain E * receipt item)
    (R : relation E) :
  law W R →
  (∀ st t st' l, nested st t = (st', Success l) → R st (Called t :: l) st') →
  (∀ st t st' e, nested st t = (st', Failure e) → st' = st) →
  ∀ st t st' l,
    step_with W nested st t = (st', Success l) → R st (Called t :: l) st'.
Proof.
  intros HR Hnested Hfailed st t st' l. unfold step_with, transact.
  destruct (is_mint t) eqn:Hcall.
  - destruct t as [sender [houseId pA pB pC pub rcpt| | | | | |]]; try done.
    unfold dispatch; simpl. rewrite mint_run.
    destruct (isMinted (token st) houseId) eqn:Hm; [done|].
    case_bool_decide as Hpub; [|done]. simpl.
    destruct (verifyProof W st (verifier (token st)) pA pB pC pub)
      as [[]|e] eqn:Hv; try done.
    case_bool_decide as Hrcpt; [done|].
    destruct (MAX_UINT256 <? _); [done|].
    destruct (acceptanceCheck _ _ _ _ _ _) as [[[[] st2] trace2]|e] eqn:Hhook;
      [|done].
    intros [= <- <-].
    destruct (respects_acceptanceCheck W nested R HR Hnested Hfailed
                _ _ _ _ _ _ _ Hhook) as (lh & -> & Hlh).
    simpl. by apply (law_mint W R HR).
  - destruct (dispatch W nested t st []) as [[[[] st1] l1]|e] eqn:Hrun; [|done].
    intros [= <- <-].
    destruct (respects_dispatch W nested R HR Hnested Hfailed t Hcall
                _ _ _ _ _ Hrun) as (l & Hl & HRl).
    simpl in Hl. subst l1. change (Called t :: l) with ([Called t] ++ l).
    eapply (law_trans W R HR); [|done]. by apply (law_called W R HR).
Qed.

(** A relation that satisfies the laws holds around every successful call,
    however deep the calls nested in it go. *)
Lemma step_respects (R : relation E) (depth : nat) :
  law W R →
  ∀ st t st' l,
    step W depth st t = (st', Success l) → R st (Called t :: l) st'.
Proof.
  intros HR. induction depth as [|depth IH]; rewrite step_callback.
  - apply step_with_respects; [done| |]; simpl.
    + by intros st t st' l [=].
    + by intros st t st' e [= <-].
  - apply step_with_respects; [done|done|apply step_failed].
Qed.

Lemma callback_respects (R : relation E) (depth : nat) :
  law W R →
  ∀ st t st' l,
    callback W depth st t = (st', Success l) → R st (Called t :: l) st'.
Proof.
  intros HR. destruct depth; simpl; [done|by apply step_respects].
Qed.

Lemma token_run_cons (depth : nat) (st : chain E) (t : tx) (ts : list tx) :
  run W depth st (t :: ts)
  = ((run W depth (step W depth st t).1 ts).1,
     (step W depth st t).2 :: (run W depth (step W depth st t).1 ts).2).
Proof.
  simpl. destruct (step W depth st t) as [st1 r]; simpl.
  by destruct (run W depth st1 ts).
Qed.

Lemma history_cons (t : tx) (ts : list tx) (r : receipt item)
    (rs : list (receipt item)) :
  history (t :: ts) (r :: rs)
  = match r with
    | Success trace => Called t :: trace
    | Failure _ => []
    end ++ history ts rs.
Proof. reflexivity. Qed.

(** And so it holds between the two ends of any sequence of
    transactions. *)
Lemma run_respects (R : relation E) (depth : nat) :
  law W R →
  ∀ ts st,
    R st (history ts (run W depth st ts).2) (run W depth st ts).1.
Proof.
  intros HR ts. induction ts as [|t ts IH]; intros st.
  - apply HR.
  - rewrite token_run_cons. cbn [fst snd]. rewrite history_cons.
    eapply (law_trans W R HR); [|apply IH].
    destruct (step W depth st t) as [st1 [l|e]] eqn:Hstep; cbn [fst snd].
    + by eapply step_respects.
    + apply step_failed in Hstep as ->. apply HR.
Qed.

End Stepping.

(** *** The four relations are lawful *)

Lemma calls_app (l1 l2 : list item) : calls (l1 ++ l2) = calls l1 ++ calls l2.
Proof. apply omap_app. Qed.

Lemma events_app (l1 l2 : list item) :
  events (l1 ++ l2) = events l1 ++ events l2.
Proof. apply omap_app. Qed.

Lemma mintNotices_app (houseId : uint256) (l1 l2 : list event) :
  mintNotices houseId (l1 ++ l2)
  = (mintNotices houseId l1 + mintNotices houseId l2)%nat.
Proof. unfold mintNotices. by rewrite filter_app, length_app. Qed.

Lemma mintCalls_app (houseId : uint256) (l1 l2 : list tx) :
  mintCalls houseId (l1 ++ l2)
  = (mintCalls houseId l1 + mintCalls houseId l2)%nat.
Proof. unfold mintCalls. by rewrite filter_app, length_app. Qed.

Lemma isMinted_moveBalance (from to : address) (id value : uint256)
    (c : contract) (houseId : uint256) :
  isMinted (moveBalance from to id value c) houseId = isMinted c houseId.
Proof. reflexivity. Qed.

Lemma law_grows {E} (W : world E) : law W grows.
Proof.
  split; unfold grows.
  - done.
  - intros st l1 st1 l2 st2 [Hv1 H1] [Hv2 H2]. split; [congruence|auto].
  - done.
  - intros st c Hv Hm _. simpl. split; [done|].
    intros id. unfold isMinted. by rewrite Hm.
  - done.
  - done.
  - done.
  - intros st sender houseId pA pB pC pub rcpt l st2 Hm _ _ _ [Hv H].
    split; [done|]. intros id Hid. apply H. simpl.
    rewrite isMinted_mintedTo. by case_decide.
Qed.

Lemma law_accounted {E} (W : world E) : law W (accounted W).
Proof.
  split; unfold accounted.
  - intros st. split; [done|]. by left.
  - intros st l1 st1 l2 st2 [Hv1 H1] [Hv2 H2]. split; [congruence|].
    intros id Hid. rewrite calls_app.
    destruct (H2 id Hid) as [Hmid|(t & Ht & Hacc)].
    + destruct (H1 id Hmid) as [?|(t & Ht & Hacc)]; [by left|].
      right. exists t. split; [|done]. apply elem_of_app. by left.
    + right. exists t. rewrite <- Hv1. split; [|done].
      apply elem_of_app. by right.
  - intros st e. split; [done|]. by left.
  - intros st c Hv Hm _. split; [done|]. intros id. simpl.
    unfold isMinted. rewrite Hm. by left.
  - intros st from to id value _ _ _. split; [done|]. by left.
  - intros st e _. split; [done|]. by left.
  - intros st t _. split; [done|]. by left.
  - intros st sender houseId pA pB pC pub rcpt l st2 Hm Hpub Hverify _ [Hv H].
    split; [done|]. intros id Hid.
    destruct (H id Hid) as [Hmid|(t & Ht & Hacc)].
    + simpl in Hmid. rewrite isMinted_mintedTo in Hmid.
      destruct (decide (houseId = id)) as [<-|Hne]; [|by left].
      right. eexists. split; [apply list_elem_of_here|].
      by exists sender, pA, pB, pC, pub, rcpt, st.
    + right. exists t. split; [|done]. simpl.
      apply list_elem_of_further. rewrite calls_app. apply elem_of_app.
      by left.
Qed.

Lemma mintNotices_other (houseId : uint256) (e : event) :
  isMintEvent e = false → mintNotices houseId [e] = 0%nat.
Proof.
  intros He. unfold mintNotices. rewrite filter_cons.
  case_decide as Hn; [|done]. by destruct e.
Qed.

Lemma mintCalls_other (houseId : uint256) (t : tx) :
  is_mint t = false → mintCalls houseId [t] = 0%nat.
Proof.
  intros Ht. unfold mintCalls. rewrite filter_cons.
  case_decide as Hn; [|done].
  unfold is_mint in Ht. unfold isMintOf in Hn. by destruct (msg_call t).
Qed.

Lemma mint_trace_events (t : tx) (a b : event) (l : list item) :
  events (Called t :: Log a :: l ++ [Log b]) = [a] ++ events l ++ [b].
Proof. unfold events; simpl. by rewrite omap_app. Qed.

Lemma mint_trace_calls (t : tx) (a b : event) (l : list item) :
  calls (Called t :: Log a :: l ++ [Log b]) = [t] ++ calls l.
Proof. unfold calls; simpl. by rewrite omap_app, app_nil_r. Qed.

Lemma mintNotices_minted (h houseId : uint256) (recipient : address) (hash : N) :
  mintNotices h [HouseTokenMinted houseId recipient hash]
  = if decide (houseId = h) then 1%nat else 0%nat.
Proof.
  unfold mintNotices. rewrite filter_cons; simpl.
  destruct (decide (houseId = h)) as [->|Hne].
  - by rewrite bool_decide_eq_true_2, decide_True.
  - by rewrite bool_decide_eq_false_2, decide_False.
Qed.

Lemma mintCalls_mint (h : uint256) (sender : address) (houseId : uint256)
    (_pA : uint_2) (_pB : uint_2_2) (_pC : uint_2) (_pubSignals : uint_1)
    (recipient : address) :
  mintCalls h [mkTx sender
                 (MintHouseToken houseId _pA _pB _pC _pubSignals recipient)]
  = if decide (houseId = h) then 1%nat else 0%nat.
Proof.
  unfold mintCalls. rewrite filter_cons; simpl. unfold isMintOf; simpl.
  destruct (decide (houseId = h)) as [->|Hne].
  - by rewrite bool_decide_eq_true_2, decide_True.
  - by rewrite bool_decide_eq_false_2, decide_False.
Qed.

Lemma law_counted {E} (W : world E) (h : uint256) : law W (counted h).
Proof.
  split; unfold counted.
  - done.
  - intros st l1 st1 l2 st2 [He1 Hc1] [He2 Hc2].
    rewrite events_app, calls_app, mintNotices_app, mintCalls_app. lia.
  - done.
  - intros st c _ Hm _. simpl. unfold isMinted. by rewrite Hm.
  - done.
  - intros st e He. simpl. by rewrite mintNotices_other.
  - intros st t Ht. simpl. by rewrite mintCalls_other.
  - intros st sender houseId pA pB pC pub rcpt l st2 Hm _ _ _ [He Hc].
    simpl in He, Hc. rewrite isMinted_mintedTo in He, Hc.
    rewrite mint_trace_events, mint_trace_calls.
    rewrite !mintNotices_app, mintCalls_app.
    rewrite mintNotices_other, mintNotices_minted, mintCalls_mint by done.
    destruct (decide (houseId = h)) as [->|Hne].
    + rewrite Hm. destruct (isMinted (token st2) h); simpl in *; lia.
    + lia.
Qed.

Lemma one_token_same (c c' : contract) :
  minted c' = minted c → _balances c' = _balances c →
  one_token c → one_token c'.
Proof.
  intros Hm Hb Hinv id. specialize (Hinv id).
  unfold isMinted, balanceOf in *. by rewrite Hm, Hb.
Qed.

(** A move between two real accounts keeps the supply invariant: of an
    asset that is not minted only the amount zero can be moved, and of a
    minted one the single unit moves as a whole. *)
Lemma one_token_moveBalance (from to : address) (id value : uint256)
    (c : contract) :
  from ≠ 0 → to ≠ 0 → value ≤ balanceOf c from id →
  one_token c → one_token (moveBalance from to id value c).
Proof.
  intros Hfrom Hto Hle Hinv id'.
  pose proof (balanceOf_moveBalance from to id value c) as Hbal.
  specialize (Hinv id'). rewrite isMinted_moveBalance.
  destruct (decide (id' = id)) as [->|Hid].
  2:{ assert (Hsame : ∀ a, balanceOf (moveBalance from to id value c) a id'
                           = balanceOf c a id').
      { intros a. rewrite Hbal.
        by rewrite !decide_False by (by intros [? ?]). }
      destruct (isMinted c id').
      - destruct Hinv as (h & Hh & Hone & Hothers). exists h.
        split; [done|]. split; [by rewrite Hsame|].
        intros a Ha. rewrite Hsame. auto.
      - intros a. by rewrite Hsame. }
  destruct (isMinted c id).
  - destruct Hinv as (h & Hh & Hone & Hothers).
    destruct (decide (value = 0)) as [->|Hvalue].
    + exists h. split; [done|].
      assert (Hsame : ∀ a, balanceOf (moveBalance from to id 0 c) a id
                           = balanceOf c a id).
      { intros a. rewrite (Hbal a id).
        destruct (decide (id = id ∧ a = to)) as [[_ ->]|_].
        - destruct (decide (to = from)) as [->|_]; lia.
        - destruct (decide (id = id ∧ a = from)) as [[_ ->]|_]; lia. }
      split; [by rewrite Hsame|]. intros a Ha. rewrite Hsame. auto.
    + assert (from = h) as ->.
      { destruct (decide (from = h)); [done|].
        pose proof (Hothers from). lia. }
      assert (value = 1) as -> by lia.
      exists to. split; [done|]. split.
      * rewrite (Hbal to id), decide_True by done.
        destruct (decide (to = h)) as [->|Hne]; [lia|].
        rewrite (Hothers to) by done. lia.
      * intros a Ha. rewrite (Hbal a id).
        rewrite decide_False by (by intros [? ?]).
        destruct (decide (id = id ∧ a = h)) as [[_ ->]|Hne]; [lia|].
        apply Hothers. intros ->. by apply Hne.
  - assert (value = 0) as -> by (pose proof (Hinv from); lia).
    intros a. rewrite (Hbal a id).
    pose proof (Hinv a). pose proof (Hinv from). pose proof (Hinv to).
    destruct (decide (id = id ∧ a = to)) as [[_ ->]|_].
    + destruct (decide (to = from)) as [->|_]; lia.
    + destruct (decide (id = id ∧ a = from)) as [[_ ->]|_]; lia.
Qed.

(** The two writes of a mint, made before the receiver is called, take a
    state with no token of the asset to one with exactly one. *)
Lemma one_token_mintedTo (houseId : uint256) (recipient : address)
    (c : contract) :
  isMinted c houseId = false → recipient ≠ 0 →
  one_token c → one_token (mintedTo houseId recipient c).
Proof.
  intros Hm Hrcpt Hinv id. pose proof (Hinv id) as Hid.
  rewrite isMinted_mintedTo.
  destruct (decide (houseId = id)) as [->|Hne].
  - rewrite Hm in Hid. exists recipient. split; [done|]. split.
    + rewrite balanceOf_mintedTo, decide_True by done. by rewrite Hid.
    + intros a Ha. rewrite balanceOf_mintedTo.
      rewrite decide_False by congruence. apply Hid.
  - assert (Hsame : ∀ a, balanceOf (mintedTo houseId recipient c) a id
                         = balanceOf c a id).
    { intros a. rewrite balanceOf_mintedTo.
      by rewrite decide_False by congruence. }
    destruct (isMinted c id).
    + destruct Hid as (h & Hh & Hone & Hothers). exists h.
      split; [done|]. split; [by rewrite Hsame|].
      intros a Ha. rewrite Hsame. auto.
    + intros a. by rewrite Hsame.
Qed.

Lemma law_supplied {E} (W : world E) : law W supplied.
Proof.
  split; unfold supplied.
  - done.
  - auto.
  - done.
  - intros st c _ Hm Hb. simpl. by apply one_token_same.
  - intros st from to id value Hfrom Hto Hle. simpl.
    by apply one_token_moveBalance.
  - done.
  - done.
  - intros st sender houseId pA pB pC pub rcpt l st2 Hm _ _ Hrcpt H Hinv.
    apply H. simpl. by apply one_token_mintedTo.
Qed.

Lemma one_token_constructor (deployer _verifier : address) (uri_ : string) :
  one_token (constructor deployer _verifier uri_).
Proof.
  intros id. unfold isMinted, balanceOf; simpl. rewrite lookup_empty; simpl.
  intros a. by rewrite lookup_empty.
Qed.

End MintGateFrames.

Module MintGateProperties.
Import HouseToken HouseTokenViews MintGateFrames.

Section Paths.
Context {E : Type} (W : world E).

(** The three failing paths of [mintHouseToken] that come before any write:
    each reverts with its own error and leaves the state as it was. *)
Lemma mint_already (depth : nat) (st : chain E) (sender : address)
    (houseId : uint256) (_pA : uint_2) (_pB : uint_2_2) (_pC : uint_2)
    (_pubSignals : uint_1) (recipient : address) :
  isMinted (token st) houseId = true →
  step W depth st (mkTx sender
                     (MintHouseToken houseId _pA _pB _pC _pubSignals recipient))
  = (st, Failure (AlreadyMinted houseId)).
Proof.
  intros Hm. rewrite step_callback. unfold step_with, transact, dispatch; simpl.
  by rewrite mint_run, Hm.
Qed.

Lemma mint_mismatch (depth : nat) (st : chain E) (sender : address)
    (houseId : uint256) (_pA : uint_2) (_pB : uint_2_2) (_pC : uint_2)
    (_pubSignals : uint_1) (recipient : address) :
  isMinted (token st) houseId = false →
  _pubSignals !!! 0%fin ≠ houseId →
  step W depth st (mkTx sender
                     (MintHouseToken houseId _pA _pB _pC _pubSignals recipient))
  = (st, Failure (Error "HouseToken: houseId mismatch")).
Proof.
  intros Hm Hne. rewrite step_callback.
  unfold step_with, transact, dispatch; simpl.
  by rewrite mint_run, Hm, bool_decide_eq_false_2.
Qed.

Lemma mint_invalid (depth : nat) (st : chain E) (sender : address)
    (houseId : uint256) (_pA : uint_2) (_pB : uint_2_2) (_pC : uint_2)
    (_pubSignals : uint_1) (recipient : address) :
  isMinted (token st) houseId = false →
  _pubSignals !!! 0%fin = houseId →
  verifyProof W st (verifier (token st)) _pA _pB _pC _pubSignals = Done false →
  step W depth st (mkTx sender
                     (MintHouseToken houseId _pA _pB _pC _pubSignals recipient))
  = (st, Failure InvalidProof).
Proof.
  intros Hm Heq Hv. rewrite step_callback.
  unfold step_with, transact, dispatch; simpl.
  by rewrite mint_run, Hm, bool_decide_eq_true_2, Hv.
Qed.

Lemma mint_verifier_reverted (depth : nat) (st : chain E) (sender : address)
    (houseId : uint256) (_pA : uint_2) (_pB : uint_2_2) (_pC : uint_2)
    (_pubSignals : uint_1) (recipient : address) (e : error) :
  isMinted (token st) houseId = false →
  _pubSignals !!! 0%fin = houseId →
  verifyProof W st (verifier (token st)) _pA _pB _pC _pubSignals = Reverted e →
  step W depth st (mkTx sender
                     (MintHouseToken houseId _pA _pB _pC _pubSignals recipient))
  = (st, Failure e).
Proof.
  intros Hm Heq Hv. rewrite step_callback.
  unfold step_with, transact, dispatch; simpl.
  by rewrite mint_run, Hm, bool_decide_eq_true_2, Hv.
Qed.

(** What a successful [mintHouseToken] went through: the checks passed,
    the hook ran on the written state and accepted, and the trace is the
    transfer event, the entries of the hook, and the mint event. *)
Lemma mint_success (depth : nat) (st st' : chain E) (trace : list item)
    (sender : address) (houseId : uint256) (_pA : uint_2) (_pB : uint_2_2)
    (_pC : uint_2) (_pubSignals : uint_1) (recipient : address) :
  step W depth st (mkTx sender
                     (MintHouseToken houseId _pA _pB _pC _pubSignals recipient))
  = (st', Success trace) →
  isMinted (token st) houseId = false ∧
  _pubSignals !!! 0%fin = houseId ∧
  verifyProof W st (verifier (token st)) _pA _pB _pC _pubSignals = Done true ∧
  recipient ≠ 0 ∧
  ∃ hooked,
    trace = Log (TransferSingle sender 0 recipient houseId 1)
            :: hooked ++ [Log (HouseTokenMinted houseId recipient
                                 (keccak256 W (abi_encode _pA _pB _pC)))] ∧
    (calls hooked = [] →
     hooked = [] ∧ token st' = mintedTo houseId recipient (token st)).
Proof.
  rewrite step_callback. unfold step_with, transact, dispatch; simpl.
  rewrite mint_run.
  destruct (isMinted (token st) houseId) eqn:Hm; [done|].
  case_bool_decide as Hpub; [|done]. simpl.
  destruct (verifyProof W st (verifier (token st)) _pA _pB _pC _pubSignals)
    as [[]|e] eqn:Hv; try done.
  case_bool_decide as Hrcpt; [done|].
  destruct (MAX_UINT256 <? _); [done|].
  destruct (acceptanceCheck _ _ _ _ _ _) as [[[[] st2] trace2]|e] eqn:Hhook;
    [|done].
  intros [= <- <-].
  destruct (acceptanceCheck_quiet W _ _ _ _ _ _ _
              (callback_failed W depth) Hhook) as (hooked & -> & Hquiet).
  repeat split; try done. exists hooked. split; [done|].
  intros Hcalls. by destruct (Hquiet Hcalls) as [-> ->].
Qed.

(** The states on the way never lose a flag. *)
Lemma step_minted_mono (depth : nat) (st : chain E) (t : tx) (houseId : uint256) :
  isMinted (token st) houseId = true →
  isMinted (token (step W depth st t).1) houseId = true.
Proof.
  intros Hm. destruct (step W depth st t) as [st' [l|e]] eqn:Hstep; simpl.
  - by apply (step_respects W grows depth (law_grows W) _ _ _ _ Hstep).
  - by apply step_failed in Hstep as ->.
Qed.

(** A successful mint during which no call back into the contract
    succeeded: the state is the written one and the trace the two events. *)
Lemma mint_success_quiet (depth : nat) (st st' : chain E) (trace : list item)
    (sender : address) (houseId : uint256) (_pA : uint_2) (_pB : uint_2_2)
    (_pC : uint_2) (_pubSignals : uint_1) (recipient : address) :
  step W depth st (mkTx sender
                     (MintHouseToken houseId _pA _pB _pC _pubSignals recipient))
  = (st', Success trace) →
  calls trace = [] →
  token st' = mintedTo houseId recipient (token st) ∧
  trace = [Log (TransferSingle sender 0 recipient houseId 1);
           Log (HouseTokenMinted houseId recipient
                  (keccak256 W (abi_encode _pA _pB _pC)))].
Proof.
  intros Hstep Hcalls.
  apply mint_success in Hstep as (_ & _ & _ & _ & hooked & -> & Hquiet).
  unfold calls in Hcalls. simpl in Hcalls.
  rewrite omap_app in Hcalls. simpl in Hcalls. rewrite app_nil_r in Hcalls.
  by destruct (Hquiet Hcalls) as [-> ->].
Qed.

(** A mint that returns normally leaves the flag of its asset set. *)
Lemma mint_sets_flag (depth : nat) (st st' : chain E) (trace : list item)
    (sender : address) (houseId : uint256) (_pA : uint_2) (_pB : uint_2_2)
    (_pC : uint_2) (_pubSignals : uint_1) (recipient : address) :
  step W depth st (mkTx sender
                     (MintHouseToken houseId _pA _pB _pC _pubSignals recipient))
  = (st', Success trace) →
  isMinted (token st') houseId = true.
Proof.
  intros Hstep.
  destruct (step_respects W (counted houseId) depth
              (law_counted W houseId) _ _ _ _ Hstep) as [_ Hcount].
  change (calls (Called ?t :: trace)) with ([t] ++ calls trace) in Hcount.
  rewrite mintCalls_app, mintCalls_mint, decide_True in Hcount by done.
  destruct (isMinted (token st') houseId); [done|simpl in Hcount; lia].
Qed.

End Paths.

(** [abi.encode] of a proof is its eight words: A, then the two rows of B,
    then C. *)
Lemma abi_encode_words (_pA : uint_2) (_pB : uint_2_2) (_pC : uint_2) :
  abi_encode _pA _pB _pC
  = [_pA !!! 0%fin; _pA !!! 1%fin;
     (_pB !!! 0%fin) !!! 0%fin; (_pB !!! 0%fin) !!! 1%fin;
     (_pB !!! 1%fin) !!! 0%fin; (_pB !!! 1%fin) !!! 1%fin;
     _pC !!! 0%fin; _pC !!! 1%fin].
Proof.
  unfold abi_encode.
  inv_vec _pA; intros a0 a1. inv_vec _pC; intros c0 c1.
  inv_vec _pB; intros b0 b1. inv_vec b0; intros b00 b01.
  inv_vec b1; intros b10 b11. reflexivity.
Qed.

(** C1. After any sequence of transactions on a freshly deployed
    HouseToken, run with any receiver hooks and to any call depth, a set
    [minted] flag of an asset is backed by a call of mintHouseToken for
    that asset that returned normally earlier in the history, as a
    transaction or as a call made from inside a receiver hook, whose
    public signals have the asset as element 0 and whose proof the
    verifier accepted for those signals.  A mint call on an already minted
    asset, with mismatching public signals, with a proof the verifier
    rejects, or with a verifier that reverts, reverts; and a reverted call
    leaves the whole state, and so [minted], untouched. *)
Theorem minted_implies_accepted_proof
    {E : Type} (W : world E) (depth : nat)
    (deployer _verifier : address) (uri_ : string) (e0 : E)
    (ts : list tx) (houseId : uint256) :
  let st0 := deployed deployer _verifier uri_ e0 in
  (isMinted (token (run W depth st0 ts).1) houseId = true →
   ∃ sender _pA _pB _pC _pubSignals recipient called,
     mkTx sender (MintHouseToken houseId _pA _pB _pC _pubSignals recipient)
       ∈ calls (history ts (run W depth st0 ts).2) ∧
     _pubSignals !!! 0%fin = houseId ∧
     verifyProof W called _verifier _pA _pB _pC _pubSignals = Done true) ∧
  (∀ depth' st sender _pA _pB _pC _pubSignals recipient,
     isMinted (token st) houseId = true ∨
     _pubSignals !!! 0%fin ≠ houseId ∨
     verifyProof W st (verifier (token st)) _pA _pB _pC _pubSignals
       = Done false ∨
     (∃ e, verifyProof W st (verifier (token st)) _pA _pB _pC _pubSignals
           = Reverted e) →
     ∃ e, step W depth' st
            (mkTx sender
               (MintHouseToken houseId _pA _pB _pC _pubSignals recipient))
          = (st, Failure e)) ∧
  (∀ depth' st t st' e,
     step W depth' st t = (st', Failure e) →
     st' = st ∧ minted (token st') = minted (token st)).
Proof.
  intros st0. split; [|split].
  - intros Hfinal.
    destruct (run_respects W (accounted W) depth (law_accounted W) ts st0)
      as [_ Hacc].
    destruct (Hacc houseId Hfinal) as [Hinit|(t & Ht & Hmint)].
    + unfold isMinted in Hinit; simpl in Hinit.
      by rewrite lookup_empty in Hinit.
    + destruct Hmint
        as (sender & pA & pB & pC & pub & rcpt & called & -> & Hpub & Hv).
      by exists sender, pA, pB, pC, pub, rcpt, called.
  - intros depth' st sender pA pB pC pub rcpt Hpath.
    destruct (isMinted (token st) houseId) eqn:Hm.
    { eexists. by apply mint_already. }
    destruct (decide (pub !!! 0%fin = houseId)) as [Hpub|Hpub].
    2:{ eexists. by apply mint_mismatch. }
    destruct Hpath as [?|[?|[Hv|[e Hv]]]]; [done|done| |].
    + eexists. by apply mint_invalid.
    + exists e. by apply mint_verifier_reverted.
  - intros depth' st t st' e Hstep. by apply step_failed in Hstep as ->.
Qed.

Lemma minted_implies_accepted_proof_witness :
  ∃ sender _pA _pB _pC _pubSignals recipient called,
    mkTx sender (MintHouseToken 43 _pA _pB _pC _pubSignals recipient)
      ∈ calls (history [demoMint 42 43 7; demoMint 42 42 7]
                 (run mintingWorld 2 (deployed 1 2 "" tt)
                    [demoMint 42 43 7; demoMint 42 42 7]).2) ∧
    _pubSignals !!! 0%fin = 43 ∧
    verifyProof mintingWorld called 2 _pA _pB _pC _pubSignals = Done true.
Proof.
  apply (minted_implies_accepted_proof mintingWorld 2 1 2 "" tt
           [demoMint 42 43 7; demoMint 42 42 7] 43).
  reflexivity.
Defined.

(** C2. From any state, along any sequence of transactions, with any
    receiver hooks and to any call depth, [minted] of an asset never goes
    back to false and goes from false to true at most once, and at most one
    call of mintHouseToken for the asset, transaction or call from a hook,
    ever returns normally; no mintHouseToken call for the asset made from
    the receiver's hook of a successful mint of that asset returns
    normally, and the trace of that mint holds one HouseTokenMinted event
    of the asset; and after a successful mint of an asset, followed by any
    transactions, every mintHouseToken call for that asset (the same
    arguments or others) reverts with AlreadyMinted for that asset and
    leaves the whole state, flags and balances, as it was. *)
Theorem mint_exactly_once
    {E : Type} (W : world E) (depth : nat) (st : chain E) (ts : list tx)
    (houseId : uint256) :
  (isMinted (token st) houseId = true →
   isMinted (token (run W depth st ts).1) houseId = true) ∧
  (flips (step W depth) (λ st, isMinted (token st) houseId) st ts ≤ 1)%nat ∧
  (mintCalls houseId (calls (history ts (run W depth st ts).2)) ≤ 1)%nat ∧
  (∀ sender _pA _pB _pC _pubSignals recipient st1 trace,
     step W depth st
       (mkTx sender
          (MintHouseToken houseId _pA _pB _pC _pubSignals recipient))
     = (st1, Success trace) →
     mintCalls houseId (calls trace) = 0%nat ∧
     mintNotices houseId (events trace) = 1%nat ∧
     ∀ depth' sender' _pA' _pB' _pC' _pubSignals' recipient',
       step W depth' (run W depth st1 ts).1
         (mkTx sender'
            (MintHouseToken houseId _pA' _pB' _pC' _pubSignals' recipient'))
       = ((run W depth st1 ts).1, Failure (AlreadyMinted houseId))).
Proof.
  split; [|split; [|split]].
  - apply (run_respects W grows depth (law_grows W) ts st).
  - apply flips_monotone. intros st1 t. apply step_minted_mono.
  - destruct (run_respects W (counted houseId) depth
                (law_counted W houseId) ts st) as [_ Hcount].
    destruct (isMinted (token (run W depth st ts).1) houseId);
      simpl in Hcount; lia.
  - intros sender pA pB pC pub rcpt st1 trace Hstep.
    destruct (step_respects W (counted houseId) depth
                (law_counted W houseId) _ _ _ _ Hstep) as [Hnotices Hcalls].
    change (calls (Called ?t :: trace)) with ([t] ++ calls trace) in Hcalls.
    change (events (Called ?t :: trace)) with (events trace) in Hnotices.
    rewrite mintCalls_app, mintCalls_mint, decide_True in Hcalls by done.
    apply mint_sets_flag in Hstep. rewrite Hstep in Hnotices, Hcalls.
    destruct (isMinted (token st) houseId); simpl in Hnotices, Hcalls;
      [lia|].
    split; [lia|]. split; [lia|]. intros *.
    apply mint_already.
    by apply (run_respects W grows depth (law_grows W) ts st1).
Qed.

Lemma mint_exactly_once_witness :
  let st1 := (step greedyWorld 2 (deployed 1 2 "" tt) (demoMint 42 42 7)).1 in
  step greedyWorld 2 (run greedyWorld 2 st1 [demoMint 5 5 8]).1
    (demoMint 42 42 7)
  = ((run greedyWorld 2 st1 [demoMint 5 5 8]).1, Failure (AlreadyMinted 42)).
Proof.
  intros st1.
  destruct (mint_exactly_once greedyWorld 2 (deployed 1 2 "" tt)
              [demoMint 5 5 8] 42) as (_ & _ & _ & Hlater).
  destruct (Hlater 9 [# 42; 0] [# [# 0; 0]; [# 0; 0]] [# 0; 0] [# 42] 7 st1
              [Log (TransferSingle 9 0 7 42 1);
               Log (HouseTokenMinted 42 7 42)]) as (_ & _ & Hagain).
  - vm_compute. reflexivity.
  - apply Hagain.
Defined.

(** C3. For an asset that is not minted yet, a mintHouseToken call whose
    public signal 0 differs from the asset reverts with the mismatch
    error of the [require] and changes nothing, whatever the proof,
    whatever the verifier would answer, and whatever code the receiver
    has. *)
Theorem public_input_mismatch_rejected
    {E : Type} (W : world E) (depth : nat) (st : chain E) (sender : address)
    (houseId : uint256)
    (_pA : uint_2) (_pB : uint_2_2) (_pC : uint_2) (_pubSignals : uint_1)
    (recipient : address) :
  isMinted (token st) houseId = false →
  _pubSignals !!! 0%fin ≠ houseId →
  step W depth st (mkTx sender
                     (MintHouseToken houseId _pA _pB _pC _pubSignals recipient))
  = (st, Failure (Error "HouseToken: houseId mismatch")).
Proof. apply mint_mismatch. Qed.

Lemma public_input_mismatch_rejected_witness :
  verifyProof demoWorld (deployed 1 2 "" tt) 2
    [# 43; 0] [# [# 0; 0]; [# 0; 0]] [# 0; 0] [# 43]
    = Done true ∧
  step demoWorld 1 (deployed 1 2 "" tt)
    (mkTx 9 (MintHouseToken 42 [# 43; 0] [# [# 0; 0]; [# 0; 0]] [# 0; 0]
               [# 43] 7))
  = (deployed 1 2 "" tt, Failure (Error "HouseToken: houseId mismatch")).
Proof.
  split; [reflexivity|].
  apply public_input_mismatch_rejected; [reflexivity|].
  simpl. lia.
Defined.

(** C9, as the claim has it, fails: a receiving contract that passes the
    token on from inside its acceptance hook ends a successful mint with
    balance 0. *)
Lemma forwarding_recipient_holds_nothing :
  let st0 := deployed 1 2 "" tt in
  let r := step forwardingWorld 1 st0 (demoMint 42 42 7) in
  isMinted (token st0) 42 = false ∧
  r.2 = Success [Log (TransferSingle 9 0 7 42 1);
                 Called (mkTx 7 (SafeTransferFrom 7 8 42 1 ""));
                 Log (TransferSingle 7 7 8 42 1);
                 Log (HouseTokenMinted 42 7 42)] ∧
  isMinted (token r.1) 42 = true ∧
  balanceOf (token r.1) 7 42 = 0 ∧
  balanceOf (token r.1) 7 42 ≠ 1.
Proof. vm_compute. repeat split; congruence. Qed.

(** C9, amended.  On a HouseToken reached from deployment by any
    transactions, with any receiver hooks and to any call depth, a
    mintHouseToken call for a not yet minted asset that succeeds had
    public signal 0 equal to the asset and a proof the
    verifier accepted; afterwards [minted] of the asset is true and exactly
    one unit of its token exists, held by one non-zero account; the trace
    starts with the TransferSingle event of the mint and ends with the
    HouseTokenMinted event of the asset, the recipient and the hash of the
    eight proof words; and when no call back into the contract from the
    receiver's hook succeeded, the unit is the recipient's (balance 1) and
    the two events are the whole trace. *)
Theorem successful_mint_effect
    {E : Type} (W : world E) (depth : nat)
    (deployer _verifier : address) (uri_ : string) (e0 : E) (ts : list tx)
    (depth' : nat) (sender : address) (houseId : uint256)
    (_pA : uint_2) (_pB : uint_2_2) (_pC : uint_2) (_pubSignals : uint_1)
    (recipient : address) (st' : chain E) (trace : list item) :
  let st := (run W depth (deployed deployer _verifier uri_ e0) ts).1 in
  isMinted (token st) houseId = false →
  step W depth' st (mkTx sender
                     (MintHouseToken houseId _pA _pB _pC _pubSignals recipient))
  = (st', Success trace) →
  _pubSignals !!! 0%fin = houseId ∧
  verifyProof W st _verifier _pA _pB _pC _pubSignals = Done true ∧
  isMinted (token st') houseId = true ∧
  (∃ holder, holder ≠ 0 ∧ balanceOf (token st') holder houseId = 1 ∧
             ∀ account, account ≠ holder →
                        balanceOf (token st') account houseId = 0) ∧
  let proofHash :=
    keccak256 W [_pA !!! 0%fin; _pA !!! 1%fin;
                 (_pB !!! 0%fin) !!! 0%fin; (_pB !!! 0%fin) !!! 1%fin;
                 (_pB !!! 1%fin) !!! 0%fin; (_pB !!! 1%fin) !!! 1%fin;
                 _pC !!! 0%fin; _pC !!! 1%fin] in
  (∃ hooked,
     trace = Log (TransferSingle sender 0 recipient houseId 1)
             :: hooked ++ [Log (HouseTokenMinted houseId recipient proofHash)]) ∧
  (calls trace = [] →
   balanceOf (token st') recipient houseId = 1 ∧
   trace = [Log (TransferSingle sender 0 recipient houseId 1);
            Log (HouseTokenMinted houseId recipient proofHash)]).
Proof.
  intros st Hm Hstep.
  assert (Hinv : one_token (token st)).
  { apply (run_respects W supplied depth (law_supplied W) ts).
    apply one_token_constructor. }
  assert (Hverifier : verifier (token st) = _verifier).
  { destruct (run_respects W grows depth (law_grows W) ts
                (deployed deployer _verifier uri_ e0)) as [Hsame _].
    exact Hsame. }
  assert (Hinv' : one_token (token st')).
  { by apply (step_respects W supplied depth' (law_supplied W) _ _ _ _ Hstep). }
  assert (Hm' : isMinted (token st') houseId = true).
  { by apply mint_sets_flag in Hstep. }
  pose proof (mint_success_quiet W _ _ _ _ _ _ _ _ _ _ _ Hstep) as Hquiet.
  apply mint_success in Hstep as (_ & Hpub & Hv & Hrcpt & hooked & Htrace & _).
  rewrite Hverifier in Hv. rewrite abi_encode_words in Htrace, Hquiet.
  split; [done|]. split; [done|]. split; [done|]. split.
  { specialize (Hinv' houseId). by rewrite Hm' in Hinv'. }
  split; [by exists hooked|].
  intros Hcalls. destruct (Hquiet Hcalls) as [Htoken ->]. split; [|done].
  rewrite Htoken, balanceOf_mintedTo, decide_True by done.
  specialize (Hinv houseId). rewrite Hm in Hinv. by rewrite Hinv.
Qed.

Lemma successful_mint_effect_witness :
  let st := (run demoWorld 1 (deployed 1 2 "" tt)
               [demoMint 5 5 7; mkTx 7 (SafeTransferFrom 7 8 5 1 "")]).1 in
  let st' := (step demoWorld 1 st (demoMint 42 42 7)).1 in
  isMinted (token st') 42 = true ∧ balanceOf (token st') 7 42 = 1.
Proof.
  intros st st'.
  destruct (successful_mint_effect demoWorld 1 1 2 "" tt
              [demoMint 5 5 7; mkTx 7 (SafeTransferFrom 7 8 5 1 "")]
              1 9 42 [# 42; 0] [# [# 0; 0]; [# 0; 0]] [# 0; 0] [# 42] 7 st'
              [Log (TransferSingle 9 0 7 42 1); Log (HouseTokenMinted 42 7 42)])
    as (_ & _ & Hminted & _ & _ & Hquiet).
  - reflexivity.
  - vm_compute. reflexivity.
  - split; [exact Hminted|]. apply Hquiet. reflexivity.
Defined.

End MintGateProperties.

(** ** Per-key isolation *)

Lemma set_roleFlag_other (r r' : HouseTokenizingGovernance.role) (v : bool)
    (s : HouseTokenizingGovernance.ApprovalState) :
  r' ≠ r →
  HouseTokenizingGovernance.roleFlag r'
    (HouseTokenizingGovernance.set_roleFlag r v s)
  = HouseTokenizingGovernance.roleFlag r' s.
Proof. by destruct r, r'. Qed.

(** C10, as the claim has it, fails in its second half: a receiving
    contract that mints asset 43 from inside its acceptance hook makes a
    successful mintHouseToken for asset 42 change [minted] and a balance at
    key 43 as well. *)
Lemma hook_mints_another_asset :
  let st0 := HouseToken.deployed 1 2 "" tt in
  let r := HouseToken.step HouseToken.mintingWorld 2 st0
             (HouseToken.demoMint 42 42 7) in
  (∃ trace, r.2 = Success trace) ∧
  HouseToken.minted (HouseToken.token st0) !! 43 = None ∧
  HouseToken.minted (HouseToken.token r.1) !! 43 = Some true ∧
  HouseToken.balanceOf (HouseToken.token st0) 8 43 = 0 ∧
  HouseToken.balanceOf (HouseToken.token r.1) 8 43 = 1.
Proof. vm_compute. repeat split. by eexists. Qed.

(** C10, amended.  An approve call for an asset leaves every other
    asset's approval record and the role addresses untouched, and within
    the asset's own record it leaves the flags of the other two roles as
    they were.  A successful mintHouseToken for an asset leaves the
    verifier untouched and clears no [minted] flag; the flag of another
    asset that it sets is backed by a successful mintHouseToken call for
    that asset, with a proof the verifier accepted, made from a receiver
    hook during the mint; and when no call back into the contract from the
    receiver's hook succeeded, it leaves [minted] of every other asset,
    every balance other than the recipient's balance of that asset's token
    id, the operator approvals, the URI and the owner untouched. *)
Theorem per_key_isolation :
  (∀ (c : HouseTokenizingGovernance.contract) (t : HouseTokenizingGovernance.tx),
     let c' := (HouseTokenizingGovernance.step c t).1 in
     let X := HouseTokenizingGovernance.tx_houseId t in
     (∀ Y, Y ≠ X →
        HouseTokenizingGovernance.approvals c' !! Y
        = HouseTokenizingGovernance.approvals c !! Y) ∧
     (∀ r, r ≠ HouseTokenizingGovernance.tx_role t →
        HouseTokenizingGovernance.roleFlag r
          (HouseTokenizingGovernance.approvalsAt c' X)
        = HouseTokenizingGovernance.roleFlag r
            (HouseTokenizingGovernance.approvalsAt c X)) ∧
     (∀ r, HouseTokenizingGovernance.roleAddress r c'
           = HouseTokenizingGovernance.roleAddress r c)) ∧
  (∀ (E : Type) (W : HouseToken.world E) (depth : nat)
     (st st' : HouseToken.chain E) (sender : address)
     (X : uint256) _pA _pB _pC _pubSignals (recipient : address) trace,
     HouseToken.step W depth st
       (HouseToken.mkTx sender
          (HouseToken.MintHouseToken X _pA _pB _pC _pubSignals recipient))
     = (st', Success trace) →
     let c := HouseToken.token st in
     let c' := HouseToken.token st' in
     HouseToken.verifier c' = HouseToken.verifier c ∧
     (∀ Y, HouseToken.isMinted c Y = true → HouseToken.isMinted c' Y = true) ∧
     (∀ Y, Y ≠ X → HouseToken.isMinted c' Y = true →
        HouseToken.isMinted c Y = true ∨
        ∃ t, t ∈ HouseToken.calls trace ∧
             HouseToken.acceptedMint W (HouseToken.verifier c) Y t) ∧
     (HouseToken.calls trace = [] →
      (∀ Y, Y ≠ X → HouseToken.minted c' !! Y = HouseToken.minted c !! Y) ∧
      (∀ id account, (id, account) ≠ (X, recipient) →
         HouseToken._balances c' !! (id, account)
         = HouseToken._balances c !! (id, account)) ∧
      HouseToken._operatorApprovals c' = HouseToken._operatorApprovals c ∧
      HouseToken._uri c' = HouseToken._uri c ∧
      HouseToken._owner c' = HouseToken._owner c)).
Proof.
  split.
  - intros c t c' X. subst c' X.
    destruct (GovernanceProperties.step_cases c t)
      as [[_ ->]|[(_ & _ & ->)|(_ & _ & ->)]]; simpl; try done.
    split; [|split].
    + intros Y HY. by apply GovernanceProperties.approved_lookup_ne.
    + intros r Hr. rewrite GovernanceProperties.approved_at; simpl.
      destruct (_ && _); simpl.
      * by destruct r, (HouseTokenizingGovernance.tx_role t).
      * by apply set_roleFlag_other.
    + intros r.
      destruct (GovernanceProperties.approved_roles
                  (HouseTokenizingGovernance.tx_role t)
                  (HouseTokenizingGovernance.tx_houseId t) c) as (? & ? & ?).
      by destruct r.
  - intros E W depth st st' sender X pA pB pC pub rcpt trace Hstep c c'.
    subst c c'.
    destruct (MintGateFrames.step_respects W HouseTokenViews.grows depth
                (MintGateFrames.law_grows W) _ _ _ _ Hstep) as [Hv Hmono].
    destruct (MintGateFrames.step_respects W (HouseTokenViews.accounted W) depth
                (MintGateFrames.law_accounted W) _ _ _ _ Hstep) as [_ Hacc].
    split; [done|]. split; [done|]. split.
    + intros Y HY Hafter.
      destruct (Hacc Y Hafter) as [Hbefore|(t & Ht & Hmint)]; [by left|].
      right. exists t. split; [|done].
      change (t ∈ HouseToken.mkTx sender
                    (HouseToken.MintHouseToken X pA pB pC pub rcpt)
                  :: HouseToken.calls trace) in Ht.
      apply elem_of_cons in Ht as [->|Ht]; [|done].
      by destruct Hmint as (? & ? & ? & ? & ? & ? & ? & [= ->] & _).
    + intros Hcalls.
      destruct (MintGateProperties.mint_success_quiet W _ _ _ _ _ _ _ _ _ _ _
                  Hstep Hcalls) as [-> _].
      simpl. repeat split; try done.
      * intros Y HY. by rewrite lookup_insert_ne.
      * intros id account Hne. by rewrite lookup_insert_ne.
Qed.

Lemma per_key_isolation_witness :
  let st := HouseToken.deployed 1 2 "" tt in
  let st' := (HouseToken.step HouseToken.demoWorld 1 st
                (HouseToken.demoMint 42 42 7)).1 in
  HouseToken.minted (HouseToken.token st') !! 43
  = HouseToken.minted (HouseToken.token st) !! 43 ∧
  HouseToken._balances (HouseToken.token st') !! (42, 8)
  = HouseToken._balances (HouseToken.token st) !! (42, 8).
Proof.
  intros st st'.
  destruct per_key_isolation as [_ Hmint].
  destruct (Hmint unit HouseToken.demoWorld 1%nat st st' 9 42
              [# 42; 0] [# [# 0; 0]; [# 0; 0]] [# 0; 0] [# 42] 7
              [HouseToken.Log (HouseToken.TransferSingle 9 0 7 42 1);
               HouseToken.Log (HouseToken.HouseTokenMinted 42 7 42)])
    as (_ & _ & _ & Hquiet).
  - vm_compute. reflexivity.
  - destruct Hquiet as (Hminted & Hbalances & _); [reflexivity|].
    split.
    + apply Hminted. lia.
    + apply Hbalances. discriminate.
Defined.

(** ** The circuit *)

Module CircuitProperties.
Import HouseApproval.
Local Open Scope Z_scope.

Lemma mod_eq_divide (p x y : Z) :
  p ≠ 0 → x mod p = y mod p → (p | x - y).
Proof.
  intros Hp Heq. exists (x / p - y / p).
  pose proof (Z.div_mod x p Hp). pose proof (Z.div_mod y p Hp). nia.
Qed.

(** An element with an inverse that satisfies the boolean constraint is
    the unit: no primality of the field order is needed. *)
Lemma boolean_and_invertible (p a b : Z) :
  1 < p →
  (a * ((a - 1) mod p)) mod p = 0 mod p →
  (a * b) mod p = 1 mod p →
  a mod p = 1.
Proof.
  intros Hp Hbool Hinv.
  rewrite Z.mul_mod_idemp_r in Hbool by lia.
  apply mod_eq_divide in Hbool as [k Hk]; [|lia].
  apply mod_eq_divide in Hinv as [j Hj]; [|lia].
  assert (Hdiv : (p | a - 1)).
  { exists (b * k - (a - 1) * j).
    transitivity (b * (a * (a - 1) - 0) - (a - 1) * (a * b - 1)); [ring|].
    rewrite Hk, Hj. ring. }
  destruct Hdiv as [m Hm].
  replace a with (1 + m * p) by lia.
  rewrite Z.mod_add by lia. by apply Z.mod_1_l.
Qed.

Lemma generateWitness_ok (p : Z) (i : inputs) :
  1 < p →
  in_agentApproved i mod p = 1 →
  in_bankApproved i mod p = 1 →
  ∃ w, generateWitness p i = Some w ∧
       w agentApproved = 1 ∧ w bankApproved = 1 ∧
       w houseId = in_houseId i mod p ∧
       w agentCheck = 0 ∧ w bankCheck = 0 ∧ w bothApproved = 1 ∧
       w houseBound = in_houseId i mod p.
Proof.
  intros Hp Ha Hb. unfold generateWitness, fmul, fsub.
  rewrite Ha, Hb. replace (1 - 1) with 0 by done.
  rewrite !Z.mod_0_l by lia. rewrite !Z.mul_0_r, !Z.mul_1_r.
  rewrite !Z.mod_0_l, !Z.mod_1_l by lia. rewrite Z.eqb_refl. simpl.
  eexists. split; [reflexivity|]. simpl.
  rewrite Z.mul_1_r, Z.mod_mod by lia. done.
Qed.

Lemma generateWitness_inv (p : Z) (i : inputs) (w : assignment) :
  1 < p →
  generateWitness p i = Some w →
  in_agentApproved i mod p = 1 ∧ in_bankApproved i mod p = 1.
Proof.
  intros Hp. unfold generateWitness, fmul, fsub.
  destruct (_ =? 0 mod p) eqn:Ha; [|done]. apply Z.eqb_eq in Ha. cbn [negb].
  destruct (_ =? 0 mod p) eqn:Hb; [|done]. apply Z.eqb_eq in Hb. cbn [negb].
  destruct (_ =? 1 mod p) eqn:Hab; [|done]. apply Z.eqb_eq in Hab. intros _.
  split.
  - rewrite <- (Z.mod_mod (in_agentApproved i) p) by lia.
    by eapply boolean_and_invertible.
  - rewrite <- (Z.mod_mod (in_bankApproved i) p) by lia.
    rewrite Z.mul_comm in Hab. by eapply boolean_and_invertible.
Qed.

(** C8, as the claim has it, fails: the template declares two private
    inputs, so the three roles cannot each have one of their own. *)
Lemma no_signal_per_role :
  ¬ ∃ f : HouseTokenizingGovernance.role → signal, oneSignalPerRole f.
Proof.
  intros (f & Hprivate & Hinj).
  pose proof (Hprivate HouseTokenizingGovernance.Agent) as HA.
  pose proof (Hprivate HouseTokenizingGovernance.Bank) as HB.
  pose proof (Hprivate HouseTokenizingGovernance.HousingDept) as HH.
  pose proof (Hinj HouseTokenizingGovernance.Agent
                HouseTokenizingGovernance.Bank) as HAB.
  pose proof (Hinj HouseTokenizingGovernance.Agent
                HouseTokenizingGovernance.HousingDept) as HAH.
  pose proof (Hinj HouseTokenizingGovernance.Bank
                HouseTokenizingGovernance.HousingDept) as HBH.
  destruct (f HouseTokenizingGovernance.Agent),
    (f HouseTokenizingGovernance.Bank),
    (f HouseTokenizingGovernance.HousingDept); simpl in *;
    try discriminate;
    first [by specialize (HAB eq_refl)
          |by specialize (HAH eq_refl)
          |by specialize (HBH eq_refl)].
Qed.

(** C8, amended.  The bundle fed to witness generation has exactly two
    private input signals, [agentApproved] and [bankApproved], and one
    public input signal, [houseId]; witness generation succeeds exactly
    when both private signals are 1 in the field, and then the witness
    satisfies the constraints of the template, has both private signals
    equal to 1, and exposes the reduced [houseId] as its only public
    signal. *)
Theorem witness_bundle_shape (p : Z) (i : inputs) :
  1 < p →
  privateInputs = [agentApproved; bankApproved] ∧
  publicInputs = [houseId] ∧
  (is_Some (generateWitness p i) ↔
   in_agentApproved i mod p = 1 ∧ in_bankApproved i mod p = 1) ∧
  (∀ w, generateWitness p i = Some w →
        constraints p w ∧
        w agentApproved = 1 ∧ w bankApproved = 1 ∧
        publicSignals w = [in_houseId i mod p]).
Proof.
  intros Hp. split; [done|]. split; [done|]. split.
  - split.
    + intros [w Hw]. by eapply generateWitness_inv.
    + intros [Ha Hb].
      destruct (generateWitness_ok p i Hp Ha Hb) as (w & -> & _). eauto.
  - intros w Hw.
    destruct (generateWitness_inv p i w Hp Hw) as [Ha Hb].
    destruct (generateWitness_ok p i Hp Ha Hb)
      as (w' & Hw' & HwA & HwB & HwH & HwAc & HwBc & HwAB & HwHB).
    rewrite Hw in Hw'. injection Hw' as <-.
    split; [|split; [done|split; [done|]]].
    + unfold constraints, fmul, fsub.
      rewrite HwA, HwB, HwH, HwAc, HwBc, HwAB, HwHB.
      replace (1 - 1) with 0 by done.
      rewrite !Z.mod_0_l by lia. rewrite !Z.mul_0_r, !Z.mul_1_r.
      rewrite !Z.mod_0_l, !Z.mod_1_l, !Z.mod_mod by lia. done.
    + unfold publicSignals, publicInputs; simpl. by rewrite HwH.
Qed.

Lemma witness_bundle_shape_witness :
  is_Some (generateWitness bn254_r (mkInputs 1 1 42)) ∧
  ¬ is_Some (generateWitness bn254_r (mkInputs 1 0 42)).
Proof.
  destruct (witness_bundle_shape bn254_r (mkInputs 1 1 42))
    as (_ & _ & [_ Hsome] & _); [reflexivity|].
  destruct (witness_bundle_shape bn254_r (mkInputs 1 0 42))
    as (_ & _ & [Hnone _] & _); [reflexivity|].
  split.
  - apply Hsome. split; reflexivity.
  - intros H. apply Hnone in H as [_ H]. discriminate H.
Defined.

End CircuitProperties.

(** ** The approval registry: ordering, provenance and locality *)

Module GovernanceTraces.
Import HouseTokenizingGovernance GovernanceViews GovernanceProperties.

(** The storage an approve transaction leaves, whether it succeeds or
    reverts. *)
Lemma step_storage (c : contract) (t : tx) :
  (step c t).1
  = if bool_decide (msg_sender t = roleAddress (tx_role t) c)
       && negb (roleFlag (tx_role t) (approvalsAt c (tx_houseId t)))
    then approved (tx_role t) (tx_houseId t) c
    else c.
Proof.
  destruct (step_cases c t) as [[Hne ->]|[(Heq & Hflag & ->)|(Heq & Hflag & ->)]];
    simpl.
  - by rewrite bool_decide_eq_false_2.
  - rewrite Hflag. by rewrite andb_false_r.
  - by rewrite bool_decide_eq_true_2, Hflag.
Qed.

Lemma approved_normal (r : role) (houseId : uint256) (c : contract) :
  approved r houseId c
  = mkContract (agent c) (bank c) (housingDept c)
      (<[houseId := closeRecord (set_roleFlag r true (approvalsAt c houseId))]>
         (approvals c)).
Proof.
  unfold approved, closeRecord; simpl. rewrite approvalsAt_update_eq.
  destruct (_ && _); [|done].
  unfold updateApprovals at 1; simpl. rewrite approvalsAt_update_eq.
  by rewrite insert_insert_eq.
Qed.

Lemma approved_roleAddress (r r' : role) (houseId : uint256) (c : contract) :
  roleAddress r' (approved r houseId c) = roleAddress r' c.
Proof. rewrite approved_normal. by destruct r'. Qed.

Lemma approved_commute (r1 r2 : role) (id1 id2 : uint256) (c : contract) :
  (r1, id1) ≠ (r2, id2) →
  approved r2 id2 (approved r1 id1 c) = approved r1 id1 (approved r2 id2 c).
Proof.
  intros Hne. rewrite !approved_normal; simpl. f_equal.
  unfold approvalsAt; simpl.
  destruct (decide (id1 = id2)) as [->|Hid].
  - rewrite !lookup_insert_eq, !insert_insert_eq; simpl. f_equal.
    assert (r1 ≠ r2) by congruence. unfold closeRecord, allApproved.
    destruct r1, r2, (default zeroApprovalState (approvals c !! id2))
      as [[] [] [] []]; simpl; done.
  - rewrite !lookup_insert_ne by done. by apply insert_insert_ne.
Qed.

Lemma approved_flag_other (r1 r2 : role) (id1 id2 : uint256) (c : contract) :
  (r1, id1) ≠ (r2, id2) →
  roleFlag r2 (approvalsAt (approved r1 id1 c) id2)
  = roleFlag r2 (approvalsAt c id2).
Proof.
  intros Hne. destruct (decide (id1 = id2)) as [->|Hid].
  - rewrite approved_at; simpl. assert (r1 ≠ r2) by congruence.
    destruct (_ && _); simpl.
    + by destruct r1, r2.
    + by destruct r1, r2.
  - by rewrite approved_at_ne.
Qed.

Lemma approved_flag_same (r : role) (houseId : uint256) (c : contract) :
  roleFlag r (approvalsAt (approved r houseId c) houseId) = true.
Proof. rewrite approved_at; simpl. destruct (_ && _); by destruct r. Qed.

Lemma enabled_approved_other (c : contract) (t1 t2 : tx) :
  (tx_role t1, tx_houseId t1) ≠ (tx_role t2, tx_houseId t2) →
  enabled (approved (tx_role t1) (tx_houseId t1) c) t2 = enabled c t2.
Proof.
  intros Hne. unfold enabled.
  by rewrite approved_roleAddress, approved_flag_other.
Qed.

Lemma enabled_approved_same (c : contract) (t1 t2 : tx) :
  (tx_role t1, tx_houseId t1) = (tx_role t2, tx_houseId t2) →
  enabled (approved (tx_role t1) (tx_houseId t1) c) t2 = false.
Proof.
  intros [= -> ->]. unfold enabled.
  by rewrite approved_flag_same, andb_false_r.
Qed.

(** X1. Two approve transactions leave the same storage in whichever order
    they are mined: whatever the senders, roles and assets, running one
    and then the other gives the contract that the opposite order gives. *)
Theorem approve_transactions_commute (c : contract) (t1 t2 : tx) :
  (step (step c t1).1 t2).1 = (step (step c t2).1 t1).1.
Proof.
  rewrite !step_storage. fold (enabled c t1) (enabled c t2).
  destruct (decide ((tx_role t1, tx_houseId t1) = (tx_role t2, tx_houseId t2)))
    as [Heq|Hne].
  - destruct (enabled c t1) eqn:H1, (enabled c t2) eqn:H2.
    + fold (enabled (approved (tx_role t1) (tx_houseId t1) c) t2).
      fold (enabled (approved (tx_role t2) (tx_houseId t2) c) t1).
      rewrite enabled_approved_same by done.
      rewrite enabled_approved_same by done.
      by injection Heq as -> ->.
    + fold (enabled (approved (tx_role t1) (tx_houseId t1) c) t2).
      fold (enabled c t1).
      rewrite enabled_approved_same by done. by rewrite H1.
    + fold (enabled c t2).
      fold (enabled (approved (tx_role t2) (tx_houseId t2) c) t1).
      rewrite enabled_approved_same by done. by rewrite H2.
    + fold (enabled c t1) (enabled c t2). by rewrite H1, H2.
  - destruct (enabled c t1) eqn:H1, (enabled c t2) eqn:H2.
    + fold (enabled (approved (tx_role t1) (tx_houseId t1) c) t2).
      fold (enabled (approved (tx_role t2) (tx_houseId t2) c) t1).
      rewrite !enabled_approved_other, H1, H2 by done.
      by apply approved_commute.
    + fold (enabled (approved (tx_role t1) (tx_houseId t1) c) t2).
      fold (enabled c t1).
      rewrite enabled_approved_other, H1, H2 by done. done.
    + fold (enabled c t2).
      fold (enabled (approved (tx_role t2) (tx_houseId t2) c) t1).
      rewrite enabled_approved_other, H1, H2 by done. done.
    + fold (enabled c t1) (enabled c t2). by rewrite H1, H2.
Qed.

(** The receipt of an approve transaction. *)
Lemma step_receipt (c : contract) (t : tx) :
  (step c t).2
  = if enabled c t
    then Success (approvalLog (tx_role t) (msg_sender t) (tx_houseId t) c)
    else Failure (if bool_decide (msg_sender t = roleAddress (tx_role t) c)
                  then alreadyApproved (tx_role t)
                  else notAuthorized (tx_role t)).
Proof.
  unfold enabled.
  destruct (step_cases c t) as [[Hne ->]|[(Heq & Hflag & ->)|(Heq & Hflag & ->)]];
    simpl.
  - by rewrite bool_decide_eq_false_2.
  - by rewrite bool_decide_eq_true_2, Hflag.
  - by rewrite bool_decide_eq_true_2, Hflag.
Qed.

Lemma step_flag (c : contract) (t : tx) (r : role) (houseId : uint256) :
  roleFlag r (approvalsAt (step c t).1 houseId)
  = roleFlag r (approvalsAt c houseId)
    || (enabled c t && bool_decide ((tx_role t, tx_houseId t) = (r, houseId))).
Proof.
  rewrite step_storage. fold (enabled c t).
  destruct (enabled c t) eqn:Hen; simpl; [|by rewrite orb_false_r].
  case_bool_decide as Hpair.
  - injection Hpair as <- <-. by rewrite approved_flag_same, orb_true_r.
  - by rewrite approved_flag_other, orb_false_r.
Qed.

Lemma enabled_sender (c : contract) (t : tx) :
  enabled c t = true → msg_sender t = roleAddress (tx_role t) c.
Proof.
  unfold enabled. intros [Hs _]%andb_prop. by apply bool_decide_eq_true in Hs.
Qed.

(** A set role flag goes back to a successful approve transaction of that
    role's address, and every such transaction sets it. *)
Lemma run_flag_origin (ts : list tx) (c : contract) (r : role)
    (houseId : uint256) :
  roleFlag r (approvalsAt (run c ts).1 houseId) = true ↔
  roleFlag r (approvalsAt c houseId) = true ∨
  ∃ i log, ts !! i = Some (mkTx (roleAddress r c) r houseId) ∧
           (run c ts).2 !! i = Some (Success log).
Proof.
  revert c. induction ts as [|t ts IH]; intros c.
  - simpl. split; [by left|]. intros [?|(i & log & Hi & _)]; [done|].
    by rewrite lookup_nil in Hi.
  - rewrite registry_run_cons; simpl. rewrite IH, step_flag, step_roles.
    rewrite orb_true_iff, andb_true_iff, bool_decide_eq_true.
    split.
    + intros [[Hc|[Hen Hpair]]|(i & log & Hi & Hr)].
      * by left.
      * right. exists 0%nat. simpl. rewrite step_receipt, Hen.
        pose proof (enabled_sender c t Hen) as Hs.
        destruct t as [sender r' id']; simpl in *.
        injection Hpair as -> ->. subst sender. eauto.
      * right. by exists (S i), log.
    + intros [Hc|(i & log & Hi & Hr)]; [by left; left|].
      destruct i as [|i]; simpl in *.
      * left; right. injection Hi as ->. simpl.
        rewrite step_receipt in Hr.
        destruct (enabled c _); [done|by injection Hr].
      * right. by exists i, log.
Qed.

(** X2. What getApprovalState reports after any history of a freshly
    deployed registry: a role's flag for an asset is [true] exactly when
    the history holds a successful approve transaction for that role and
    asset whose sender is the role's constructor address, and the fourth
    value is the conjunction of the first three. *)
Theorem approval_state_provenance
    (_agent _bank _housingDept : address) (ts : list tx) (houseId : uint256) :
  let c0 := constructor _agent _bank _housingDept in
  let s := approvalsAt (run c0 ts).1 houseId in
  (∀ r, roleFlag r s = true ↔
        ∃ i log, ts !! i = Some (mkTx (roleAddress r c0) r houseId) ∧
                 (run c0 ts).2 !! i = Some (Success log)) ∧
  getApprovalState (run c0 ts).1 houseId
  = (roleFlag Agent s, roleFlag Bank s, roleFlag HousingDept s,
     roleFlag Agent s && roleFlag Bank s && roleFlag HousingDept s).
Proof.
  intros c0 s. split.
  - intros r. unfold s. rewrite run_flag_origin.
    split; [|by right]. intros [Hinit|?]; [|done].
    unfold approvalsAt in Hinit; simpl in Hinit.
    rewrite lookup_empty in Hinit. by destruct r.
  - unfold getApprovalState. fold s. simpl. f_equal.
    apply (run_consistent ts c0 (constructor_consistent _ _ _) houseId).
Qed.

Lemma approval_state_provenance_witness :
  roleFlag Bank
    (approvalsAt (run (constructor 1 2 3) [mkTx 9 Bank 42; mkTx 2 Bank 42]).1 42)
  = true.
Proof.
  destruct (approval_state_provenance 1 2 3 [mkTx 9 Bank 42; mkTx 2 Bank 42] 42)
    as [Hflag _].
  apply (Hflag Bank). exists 1%nat, [HouseApproved 42 2 "Bank"].
  split; reflexivity.
Defined.

(** *** The per-approval notice *)

Lemma step_approved_notice (c : contract) (t : tx) (r : role)
    (houseId : uint256) :
  (occurrences (HouseApproved houseId (roleAddress r c) (roleName r))
     (logs_of (step c t).2)
   + b2n (roleFlag r (approvalsAt c houseId)))%nat
  = b2n (roleFlag r (approvalsAt (step c t).1 houseId)).
Proof.
  rewrite step_flag, step_receipt.
  destruct (enabled c t) eqn:Hen; simpl; [|by rewrite orb_false_r].
  pose proof (enabled_sender c t Hen) as Hs.
  unfold enabled in Hen. apply andb_prop in Hen as [_ Hflag].
  apply negb_true_iff in Hflag.
  unfold approvalLog. rewrite occurrences_cons.
  case_bool_decide as Hpair.
  - injection Hpair as <- <-. rewrite Hflag, Hs, decide_True by done.
    destruct (_ && _); [|done].
    by rewrite occurrences_cons, decide_False.
  - rewrite orb_false_r, decide_False.
    + destruct (_ && _); [|done].
      by rewrite occurrences_cons, decide_False.
    + intros [= Hid _ Hname]. apply Hpair. f_equal; [|done].
      by destruct (tx_role t), r.
Qed.

Lemma run_approved_notice (ts : list tx) (c : contract) (r : role)
    (houseId : uint256) :
  (occurrences (HouseApproved houseId (roleAddress r c) (roleName r))
     (emitted (run c ts).2)
   + b2n (roleFlag r (approvalsAt c houseId)))%nat
  = b2n (roleFlag r (approvalsAt (run c ts).1 houseId)).
Proof.
  revert c. induction ts as [|t ts IH]; intros c; [done|].
  rewrite registry_run_cons; simpl. rewrite emitted_cons, occurrences_app.
  rewrite <- IH, <- (step_approved_notice c t r houseId), step_roles. lia.
Qed.

(** Every HouseApproved event in the log names a role and that role's
    address. *)
Lemma run_approved_author (ts : list tx) (c : contract) (houseId : uint256)
    (approver : address) (name : string) :
  HouseApproved houseId approver name ∈ emitted (run c ts).2 →
  ∃ r, name = roleName r ∧ approver = roleAddress r c.
Proof.
  revert c. induction ts as [|t ts IH]; intros c.
  - by intros ?%elem_of_nil.
  - rewrite registry_run_cons; simpl. rewrite emitted_cons, elem_of_app.
    intros [Hnow|Hlater].
    + rewrite step_receipt in Hnow.
      destruct (enabled c t) eqn:Hen; simpl in Hnow;
        [|by apply elem_of_nil in Hnow].
      pose proof (enabled_sender c t Hen) as Hs.
      unfold approvalLog in Hnow. apply elem_of_cons in Hnow as [Heq|Hnow].
      * injection Heq as -> -> ->. eauto.
      * destruct (_ && _); [|by apply elem_of_nil in Hnow].
        apply list_elem_of_singleton in Hnow. done.
    + destruct (IH _ Hlater) as (r & -> & ->). exists r.
      by rewrite step_roles.
Qed.

(** X3. Over any history of a freshly deployed registry the log holds the
    HouseApproved event of a role and an asset, with the role's address as
    approver, once when that role's flag for the asset is set and not at
    all otherwise; and no HouseApproved event names an approver other than
    the address of the role it names. *)
Theorem approved_notice_once_per_role
    (_agent _bank _housingDept : address) (ts : list tx) (houseId : uint256) :
  let c0 := constructor _agent _bank _housingDept in
  (∀ r, occurrences (HouseApproved houseId (roleAddress r c0) (roleName r))
          (emitted (run c0 ts).2)
        = b2n (roleFlag r (approvalsAt (run c0 ts).1 houseId))) ∧
  (∀ approver name,
     HouseApproved houseId approver name ∈ emitted (run c0 ts).2 →
     ∃ r, name = roleName r ∧ approver = roleAddress r c0).
Proof.
  intros c0. split.
  - intros r. pose proof (run_approved_notice ts c0 r houseId) as Hrun.
    assert (Hinit : roleFlag r (approvalsAt c0 houseId) = false).
    { unfold approvalsAt; simpl. rewrite lookup_empty. by destruct r. }
    rewrite Hinit in Hrun. simpl in Hrun. lia.
  - intros approver name. apply run_approved_author.
Qed.

Lemma approved_notice_once_per_role_witness :
  ∃ r, "Bank" = roleName r ∧ 2 = roleAddress r (constructor 1 2 3).
Proof.
  destruct (approved_notice_once_per_role 1 2 3
              [mkTx 9 Bank 42; mkTx 2 Bank 42] 42) as [_ Hauthor].
  apply (Hauthor 2 "Bank"). vm_compute. apply list_elem_of_here.
Defined.

(** *** Locality of an asset's history *)

Lemma step_agree_same (houseId : uint256) (c1 c2 : contract) (t : tx) :
  agree_on houseId c1 c2 →
  tx_houseId t = houseId →
  agree_on houseId (step c1 t).1 (step c2 t).1 ∧ (step c1 t).2 = (step c2 t).2.
Proof.
  intros [Hroles Hrec] <-.
  assert (Hen : enabled c1 t = enabled c2 t).
  { unfold enabled. by rewrite Hroles, Hrec. }
  split; [split|].
  - intros r. by rewrite !step_roles.
  - rewrite !step_storage. fold (enabled c1 t) (enabled c2 t). rewrite Hen.
    destruct (enabled c2 t); [|done]. by rewrite !approved_at, Hrec.
  - rewrite !step_receipt, Hen, Hroles. unfold approvalLog. by rewrite Hrec.
Qed.

Lemma step_agree_other (houseId : uint256) (c : contract) (t : tx) :
  tx_houseId t ≠ houseId → agree_on houseId (step c t).1 c.
Proof.
  intros Hne. split.
  - intros r. apply step_roles.
  - rewrite step_storage. destruct (_ && _); [|done].
    by rewrite approved_at_ne.
Qed.

Lemma run_agree (houseId : uint256) (ts : list tx) (c1 c2 : contract) :
  agree_on houseId c1 c2 →
  let own := filter (λ t, tx_houseId t = houseId) ts in
  approvalsAt (run c1 ts).1 houseId = approvalsAt (run c2 own).1 houseId ∧
  (filter (λ tr, tx_houseId tr.1 = houseId) (zip ts (run c1 ts).2)).*2
  = (run c2 own).2.
Proof.
  revert c1 c2. induction ts as [|t ts IH]; intros c1 c2 Hagree; cbv zeta.
  - simpl. split; [apply Hagree|done].
  - rewrite registry_run_cons. cbn [fst snd zip zip_with].
    rewrite !filter_cons. cbn [fst snd].
    case_decide as Hid.
    + destruct (step_agree_same houseId c1 c2 t Hagree Hid) as [Hnext Hrec].
      rewrite registry_run_cons. cbn [fst snd].
      destruct (IH _ _ Hnext) as [Hstate Hreceipts].
      split; [done|]. rewrite fmap_cons. cbn [snd]. by rewrite Hrec, Hreceipts.
    + apply IH. destruct (step_agree_other houseId c1 t Hid) as [Hr Hs].
      destruct Hagree as [Hr' Hs']. split; [|congruence].
      intros r. by rewrite Hr.
Qed.

(** X4. The record of an asset, and the receipts of the transactions that
    target it, do not depend on the transactions for other assets: dropping
    from any history every transaction for another asset leaves both as
    they are. *)
Theorem asset_history_is_local (c : contract) (ts : list tx) (houseId : uint256) :
  let own := filter (λ t, tx_houseId t = houseId) ts in
  getApprovalState (run c ts).1 houseId = getApprovalState (run c own).1 houseId ∧
  (filter (λ tr, tx_houseId tr.1 = houseId) (zip ts (run c ts).2)).*2
  = (run c own).2.
Proof.
  intros own.
  destruct (run_agree houseId ts c c) as [Hstate Hreceipts]; [by split|].
  split; [|done]. unfold getApprovalState. by rewrite Hstate.
Qed.

End GovernanceTraces.

(** ** Supply, outcomes and the mint notice *)

Module MintGateSupply.
Import HouseToken HouseTokenViews MintGateFrames.

(** X5. Whatever transactions it has seen since deployment, with any
    receiver hooks calling back into it to any depth, HouseToken holds
    exactly one token of every minted asset, in the hands of one non-zero
    account, and no token at all of an asset that is not minted: mints,
    transfers and batch transfers never create a second unit and never
    destroy the first. *)
Theorem one_token_per_asset
    {E : Type} (W : world E) (depth : nat)
    (deployer _verifier : address) (uri_ : string) (e0 : E) (ts : list tx)
    (id : uint256) :
  let c := token (run W depth (deployed deployer _verifier uri_ e0) ts).1 in
  if isMinted c id
  then ∃ holder, holder ≠ 0 ∧ balanceOf c holder id = 1 ∧
                 ∀ account, account ≠ holder → balanceOf c account id = 0
  else ∀ account, balanceOf c account id = 0.
Proof.
  intros c. subst c.
  apply (run_respects W supplied depth (law_supplied W) ts).
  apply one_token_constructor.
Qed.

(** X6. The outcome of mintHouseToken on a HouseToken reached from
    deployment is decided by the checks in source order: AlreadyMinted for
    a minted asset; else the mismatch revert when public signal 0 is not
    the asset; else the verifier's own revert, passed on as it is, or
    InvalidProof when it answers false; else the zero-recipient revert;
    else whatever the acceptance check of the recipient does on the state
    with the flag set and the unit credited: its revert undoes the mint,
    and when it returns the call succeeds in the state the check left, with
    the HouseTokenMinted event after the entries of the check.  The
    overflow panic of the balance update cannot occur.  For a recipient
    without code the check does nothing: the call sets the flag, gives the
    recipient balance 1 and logs TransferSingle then HouseTokenMinted. *)
Theorem mint_outcome_table
    {E : Type} (W : world E) (depth : nat)
    (deployer _verifier : address) (uri_ : string) (e0 : E) (ts : list tx)
    (depth' : nat) (sender : address) (houseId : uint256)
    (_pA : uint_2) (_pB : uint_2_2) (_pC : uint_2) (_pubSignals : uint_1)
    (recipient : address) :
  let st := (run W depth (deployed deployer _verifier uri_ e0) ts).1 in
  let written := mkChain (mintedTo houseId recipient (token st)) (env st) in
  let transfer := Log (TransferSingle sender 0 recipient houseId 1) in
  let notice := Log (HouseTokenMinted houseId recipient
                       (keccak256 W (abi_encode _pA _pB _pC))) in
  step W depth' st (mkTx sender
                     (MintHouseToken houseId _pA _pB _pC _pubSignals recipient))
  = (if isMinted (token st) houseId then (st, Failure (AlreadyMinted houseId))
     else if negb (bool_decide (_pubSignals !!! 0%fin = houseId))
     then (st, Failure (Error "HouseToken: houseId mismatch"))
     else match verifyProof W st _verifier _pA _pB _pC _pubSignals with
          | Reverted e => (st, Failure e)
          | Done false => (st, Failure InvalidProof)
          | Done true =>
              if bool_decide (recipient = 0)
              then (st, Failure (ERC1155InvalidReceiver 0))
              else match acceptanceCheck W (callback W depth') recipient
                           (onERC1155Received W recipient sender 0 houseId 1 "")
                           written [transfer]
                   with
                   | Reverted e => (st, Failure e)
                   | Done (_, st2, trace2) => (st2, Success (trace2 ++ [notice]))
                   end
          end) ∧
  (hasCode W (env st) recipient = false →
   acceptanceCheck W (callback W depth') recipient
     (onERC1155Received W recipient sender 0 houseId 1 "") written [transfer]
   = Done (tt, written, [transfer])) ∧
  (isMinted (token st) houseId = false →
   balanceOf (token written) recipient houseId = 1).
Proof.
  intros st written transfer notice.
  assert (Hinv : one_token (token st)).
  { apply (run_respects W supplied depth (law_supplied W) ts).
    apply one_token_constructor. }
  assert (Hverifier : verifier (token st) = _verifier).
  { destruct (run_respects W grows depth (law_grows W) ts
                (deployed deployer _verifier uri_ e0)) as [Hsame _].
    exact Hsame. }
  specialize (Hinv houseId). split; [|split].
  - rewrite step_callback. unfold step_with, transact, dispatch; simpl.
    rewrite mint_run, Hverifier.
    destruct (isMinted (token st) houseId); [done|].
    case_bool_decide as Hpub; [|done]. simpl.
    destruct (verifyProof W st _verifier _pA _pB _pC _pubSignals) as [[]|e];
      try done.
    case_bool_decide as Hrcpt; [done|].
    rewrite (Hinv recipient). change (MAX_UINT256 <? 0 + 1) with false.
    cbv iota. fold written transfer notice.
    by destruct (acceptanceCheck _ _ _ _ _ _) as [[[[] st2] trace2]|e].
  - intros Hcode. unfold acceptanceCheck. token_unfold.
    change (env written) with (env st). by rewrite Hcode.
  - intros Hm. rewrite Hm in Hinv. unfold written. simpl.
    rewrite balanceOf_mintedTo, decide_True by done. by rewrite Hinv.
Qed.

Lemma mint_outcome_table_witness :
  balanceOf
    (mintedTo 42 7
       (token (run demoWorld 1 (deployed 1 2 "" tt) [demoMint 5 5 7]).1)) 7 42
  = 1.
Proof.
  apply (mint_outcome_table demoWorld 1 1 2 "" tt [demoMint 5 5 7]
           1 9 42 [# 42; 0] [# [# 0; 0]; [# 0; 0]] [# 0; 0] [# 42] 7).
  reflexivity.
Defined.

(** X7. Over any history of a freshly deployed HouseToken, the
    transactions and the calls made from receiver hooks together, the
    trace holds exactly one HouseTokenMinted event for an asset when the
    asset is minted and none when it is not. *)
Theorem minted_notice_exactly_once
    {E : Type} (W : world E) (depth : nat)
    (deployer _verifier : address) (uri_ : string) (e0 : E) (ts : list tx)
    (houseId : uint256) :
  let st0 := deployed deployer _verifier uri_ e0 in
  mintNotices houseId (events (history ts (run W depth st0 ts).2))
  = b2n (isMinted (token (run W depth st0 ts).1) houseId).
Proof.
  intros st0.
  destruct (run_respects W (counted houseId) depth (law_counted W houseId)
              ts st0) as [Hcount _].
  rewrite <- Hcount. unfold st0, isMinted; simpl.
  rewrite lookup_empty; simpl. lia.
Qed.

(** X8. Nothing but a successful mintHouseToken sets a [minted] flag:
    after any history the verifier is still the address the constructor
    was given; and any other transaction, whoever sends it (the owner
    included), leaves the verifier as it is, sets a flag only where a
    mintHouseToken call made from a receiver hook beneath it succeeded
    with a proof the verifier accepted, and leaves every flag as it was
    when no call from a hook succeeded. *)
Theorem mint_is_the_only_gate
    {E : Type} (W : world E) (depth : nat)
    (deployer _verifier : address) (uri_ : string) (e0 : E) (ts : list tx)
    (depth' : nat) (t : tx) :
  let st := (run W depth (deployed deployer _verifier uri_ e0) ts).1 in
  let r := step W depth' st t in
  verifier (token st) = _verifier ∧
  (is_mint t = false →
   verifier (token r.1) = _verifier ∧
   (∀ id, isMinted (token r.1) id = true →
      isMinted (token st) id = true ∨
      ∃ t', t' ∈ calls (logs_of r.2) ∧ acceptedMint W _verifier id t') ∧
   (calls (logs_of r.2) = [] →
    ∀ id, isMinted (token r.1) id = isMinted (token st) id)).
Proof.
  intros st r.
  assert (Hverifier : verifier (token st) = _verifier).
  { destruct (run_respects W grows depth (law_grows W) ts
                (deployed deployer _verifier uri_ e0)) as [Hsame _].
    exact Hsame. }
  split; [done|]. intros Ht. subst r.
  destruct (step W depth' st t) as [st' [trace|e]] eqn:Hstep; simpl.
  2:{ apply step_failed in Hstep as ->. repeat split; auto. }
  destruct (step_respects W grows depth' (law_grows W) _ _ _ _ Hstep)
    as [Hv Hmono].
  destruct (step_respects W (accounted W) depth' (law_accounted W)
              _ _ _ _ Hstep) as [_ Hacc].
  rewrite Hverifier in Hv, Hacc.
  assert (Hnew : ∀ id, isMinted (token st') id = true →
                       isMinted (token st) id = true ∨
                       ∃ t', t' ∈ calls trace ∧ acceptedMint W _verifier id t').
  { intros id Hafter.
    destruct (Hacc id Hafter) as [Hbefore|(t' & Ht' & Hmint)]; [by left|].
    right. exists t'. split; [|done].
    change (t' ∈ t :: calls trace) in Ht'.
    apply elem_of_cons in Ht' as [->|Ht']; [|done].
    destruct Hmint as (? & ? & ? & ? & ? & ? & ? & -> & _). done. }
  split; [done|]. split; [done|].
  intros Hcalls id. specialize (Hnew id). specialize (Hmono id).
  rewrite Hcalls in Hnew.
  destruct (isMinted (token st') id), (isMinted (token st) id); try done.
  - destruct Hnew as [?|(t' & Ht' & _)]; [done|done|].
    by apply elem_of_nil in Ht'.
  - by specialize (Hmono eq_refl).
Qed.

Lemma mint_is_the_only_gate_witness :
  let st := (run forwardingWorld 2 (deployed 1 2 "" tt) [demoMint 42 42 7]).1 in
  verifier
    (token (step forwardingWorld 2 st (mkTx 8 (SafeTransferFrom 8 7 42 1 ""))).1)
  = 2.
Proof.
  intros st.
  apply (mint_is_the_only_gate forwardingWorld 2 1 2 "" tt
           [demoMint 42 42 7] 2 (mkTx 8 (SafeTransferFrom 8 7 42 1 ""))).
  reflexivity.
Defined.

(** X9. setURI is the owner's alone: from any other sender it reverts with
    OwnableUnauthorizedAccount and changes nothing; from the owner it
    succeeds without an event and without a call, and replaces the URI,
    leaving the verifier, the [minted] flags, the balances, the operator
    approvals, the owner and every other contract as they were. *)
Theorem setURI_owner_only
    {E : Type} (W : world E) (depth : nat) (st : chain E) (sender : address)
    (newUri : string) :
  let c := token st in
  let r := step W depth st (mkTx sender (SetURI newUri)) in
  (sender ≠ _owner c → r = (st, Failure (OwnableUnauthorizedAccount sender))) ∧
  (sender = _owner c →
   r.2 = Success [] ∧ _uri (token r.1) = newUri ∧
   verifier (token r.1) = verifier c ∧ minted (token r.1) = minted c ∧
   _balances (token r.1) = _balances c ∧
   _operatorApprovals (token r.1) = _operatorApprovals c ∧
   _owner (token r.1) = _owner c ∧ env r.1 = env st).
Proof.
  intros c r. subst c r. rewrite step_callback.
  unfold step_with, transact, dispatch, setURI, onlyOwner; simpl.
  token_unfold. split.
  - intros Hne. by rewrite bool_decide_eq_true_2 by done.
  - intros Heq. by rewrite bool_decide_eq_false_2 by (by intros []).
Qed.

Lemma setURI_owner_only_witness :
  step demoWorld 1 (deployed 1 2 "" tt) (mkTx 5 (SetURI "ipfs://x"))
  = (deployed 1 2 "" tt, Failure (OwnableUnauthorizedAccount 5)) ∧
  _uri (token (step demoWorld 1 (deployed 1 2 "" tt)
                 (mkTx 1 (SetURI "ipfs://x"))).1)
  = "ipfs://x".
Proof.
  split.
  - destruct (setURI_owner_only demoWorld 1 (deployed 1 2 "" tt) 5 "ipfs://x")
      as [Hother _].
    apply Hother. simpl. lia.
  - destruct (setURI_owner_only demoWorld 1 (deployed 1 2 "" tt) 1 "ipfs://x")
      as [_ Howner].
    apply Howner. reflexivity.
Defined.

End MintGateSupply.

(** ** The circuit: the solutions of the constraint system *)

Module CircuitSolutions.
Import HouseApproval CircuitProperties.
Local Open Scope Z_scope.

Lemma unit_is_boolean (p a : Z) :
  1 < p → a mod p = 1 → (a * ((a - 1) mod p)) mod p = 0.
Proof.
  intros Hp Ha. rewrite <- Zminus_mod_idemp_l, Ha.
  replace (1 - 1) with 0 by done.
  rewrite Z.mod_0_l by lia. by rewrite Z.mul_0_r, Z.mod_0_l by lia.
Qed.

(** X10. Over any modulus above 1, an assignment satisfies the constraints
    of the template exactly when both approval signals are 1 in the field,
    the two check signals are 0, [bothApproved] is 1 and [houseBound] is
    the reduced [houseId]; the constraints put no condition on [houseId]
    itself, so for every identifier there is a satisfying assignment. *)
Theorem constraint_solutions (p : Z) (w : assignment) :
  1 < p →
  (constraints p w ↔
   w agentApproved mod p = 1 ∧ w bankApproved mod p = 1 ∧
   w agentCheck = 0 ∧ w bankCheck = 0 ∧ w bothApproved = 1 ∧
   w houseBound = w houseId mod p) ∧
  (∀ h, ∃ w', constraints p w' ∧ w' houseId = h).
Proof.
  intros Hp.
  assert (H0 : 0 mod p = 0) by (apply Z.mod_0_l; lia).
  assert (H1 : 1 mod p = 1) by (by apply Z.mod_1_l).
  assert (Hsol : ∀ v : assignment,
            v agentApproved mod p = 1 ∧ v bankApproved mod p = 1 ∧
            v agentCheck = 0 ∧ v bankCheck = 0 ∧ v bothApproved = 1 ∧
            v houseBound = v houseId mod p → constraints p v).
  { intros v (Ha & Hb & Hac & Hbc & Hab & Hhb).
    unfold constraints, fmul, fsub. rewrite Hac, Hbc, Hab, Hhb, H0, H1.
    rewrite !unit_is_boolean by done.
    rewrite Z.mul_mod, Ha, Hb by lia. replace (1 * 1) with 1 by done.
    rewrite H1, Z.mul_1_r, Z.mul_0_r, H0. done. }
  split; [split|].
  - unfold constraints, fmul, fsub. rewrite H0, H1.
    intros (Hac & Hac0 & Hbc & Hbc0 & Hab & Hab1 & Hhb & _).
    rewrite Hac0 in Hac. rewrite Hbc0 in Hbc. rewrite Hab1 in Hab.
    repeat split; try done.
    + apply (boolean_and_invertible p _ (w bankApproved)); [done| |];
        by rewrite ?H0, ?H1.
    + apply (boolean_and_invertible p _ (w agentApproved)); [done| |];
        rewrite ?H0, ?H1; [done|by rewrite Z.mul_comm].
    + by rewrite Hhb, Hab1, Z.mul_1_r.
  - apply Hsol.
  - intros h.
    exists (λ s, match s with
                 | agentApproved | bankApproved | bothApproved => 1
                 | houseId => h
                 | agentCheck | bankCheck => 0
                 | houseBound => h mod p
                 end).
    split; [|done]. apply Hsol. by rewrite H1.
Qed.

Lemma constraint_solutions_witness :
  ∃ w, constraints bn254_r w ∧ w houseId = 42.
Proof.
  destruct (constraint_solutions bn254_r (λ _, 0)) as [_ Hany]; [reflexivity|].
  apply (Hany 42).
Defined.

End CircuitSolutions.

(** ** The test flow against the registry *)

Module TestFlowProperties.
Import HouseTokenizingGovernance GovernanceViews GovernanceProperties.
Import GovernanceTraces TestFlow.

Lemma step_success_flag (c c' : contract) (sender : address) (r : role)
    (houseId : uint256) (log : list event) :
  step c (mkTx sender r houseId) = (c', Success log) →
  sender = roleAddress r c ∧ roleFlag r (approvalsAt c' houseId) = true ∧
  (∀ r', roleAddress r' c' = roleAddress r' c) ∧
  (∀ r', roleFlag r' (approvalsAt c houseId) = true →
         roleFlag r' (approvalsAt c' houseId) = true).
Proof.
  intros Hstep.
  pose proof (step_receipt c (mkTx sender r houseId)) as Hr.
  pose proof (step_flag c (mkTx sender r houseId) r houseId) as Hf.
  pose proof (step_roleFlag_mono c (mkTx sender r houseId) houseId) as Hmono.
  pose proof (step_roles c (mkTx sender r houseId)) as Hroles.
  rewrite Hstep in Hr, Hf, Hmono, Hroles. simpl in *.
  destruct (enabled c _) eqn:Hen; [|done].
  apply enabled_sender in Hen as Hs. simpl in Hs.
  rewrite bool_decide_eq_true_2 in Hf by done.
  rewrite orb_true_r in Hf. auto.
Qed.

(** X11. Run against a registry reached from deployment, with any integer
    as HOUSE_ID, the test flow never fails its check of [fullyApproved]:
    when its three approve transactions succeed, HOUSE_ID fits a uint256,
    getApprovalState reads four [true]s and the three signers are the
    registry's three role addresses. *)
Theorem approval_phase_sound
    (_agent _bank _housingDept : address) (ts : list tx)
    (token : HouseToken.contract)
    (agentSigner bankSigner housingSigner : address) (HOUSE_ID : Z) :
  let gov := (run (constructor _agent _bank _housingDept) ts).1 in
  let r := approvalPhase token agentSigner bankSigner housingSigner HOUSE_ID gov in
  r.2 ≠ NotFullyApproved ∧
  (r.2 = AwaitingMint →
   (0 ≤ HOUSE_ID ≤ Z.of_N MAX_UINT256)%Z ∧
   getApprovalState r.1 (Z.to_N HOUSE_ID) = (true, true, true, true) ∧
   agentSigner = _agent ∧ bankSigner = _bank ∧ housingSigner = _housingDept).
Proof.
  intros gov r. subst r. unfold approvalPhase.
  destruct (encodable HOUSE_ID) eqn:Hfits; [|done]. cbv [negb].
  apply andb_true_iff in Hfits as [Hlo Hhi].
  apply Z.leb_le in Hlo. apply Z.leb_le in Hhi.
  set (houseId := Z.to_N HOUSE_ID).
  assert (Hgov : consistent gov)
    by apply run_consistent, constructor_consistent.
  assert (Hroles : ∀ r, roleAddress r gov
                        = roleAddress r (constructor _agent _bank _housingDept))
    by (intros r; apply run_roles).
  destruct (HouseToken.isMinted token houseId); [done|].
  pose proof (step_consistent gov (mkTx agentSigner Agent houseId) Hgov) as Hg1.
  destruct (step gov _) as [gov1 [log1|e1]] eqn:H1; [|done].
  pose proof (step_consistent gov1 (mkTx bankSigner Bank houseId) Hg1) as Hg2.
  destruct (step gov1 _) as [gov2 [log2|e2]] eqn:H2; [|done].
  pose proof (step_consistent gov2 (mkTx housingSigner HousingDept houseId) Hg2)
    as Hg3.
  destruct (step gov2 _) as [gov3 [log3|e3]] eqn:H3; [|done].
  simpl in Hg1, Hg2, Hg3.
  apply step_success_flag in H1 as (Hs1 & Hf1 & Hr1 & _).
  apply step_success_flag in H2 as (Hs2 & Hf2 & Hr2 & Hm2).
  apply step_success_flag in H3 as (Hs3 & Hf3 & Hr3 & Hm3).
  pose proof (Hm3 Agent (Hm2 Agent Hf1)) as HA.
  pose proof (Hm3 Bank Hf2) as HB.
  specialize (Hg3 houseId). unfold aggregated_ok, allApproved in Hg3.
  simpl in HA, HB, Hf3. unfold getApprovalState.
  rewrite Hg3, HA, HB, Hf3. simpl. split; [done|]. intros _.
  rewrite Hg3, HA, HB, Hf3. split; [done|]. split; [done|].
  rewrite Hs1, Hs2, Hs3, (Hr2 HousingDept), (Hr1 HousingDept), (Hr1 Bank).
  by rewrite !Hroles.
Qed.

Lemma approval_phase_sound_witness :
  getApprovalState
    (approvalPhase (HouseToken.constructor 1 2 "") 1 2 3 42
       (run (constructor 1 2 3) [mkTx 2 Bank 7]).1).1 42
  = (true, true, true, true).
Proof.
  apply (approval_phase_sound 1 2 3 [mkTx 2 Bank 7]
           (HouseToken.constructor 1 2 "") 1 2 3 42%Z).
  reflexivity.
Defined.

(** X12. The test flow stops before any transaction, at its read of
    [minted], when HOUSE_ID does not fit a uint256.  For a HOUSE_ID that
    fits, with the three role addresses as signers and the token not yet
    minted, it reaches the wait for the relayer when no role has approved
    the asset before, leaving the registry as the three approve
    transactions leave it; but when the Agent's flag is already set, as
    after an earlier run whose mint is still outstanding, it fails at its
    first step with the Agent's double-approval revert and changes
    nothing. *)
Theorem approval_phase_rerun
    (token : HouseToken.contract) (gov : contract) (HOUSE_ID : Z) :
  let flow := approvalPhase token (agent gov) (bank gov) (housingDept gov)
                HOUSE_ID gov in
  let houseId := Z.to_N HOUSE_ID in
  ((HOUSE_ID < 0 ∨ Z.of_N MAX_UINT256 < HOUSE_ID)%Z →
   flow = (gov, EncodingFailed)) ∧
  ((0 ≤ HOUSE_ID ≤ Z.of_N MAX_UINT256)%Z →
   HouseToken.isMinted token houseId = false →
   (getApprovalState gov houseId = (false, false, false, false) →
    flow = ((run gov [mkTx (agent gov) Agent houseId;
                      mkTx (bank gov) Bank houseId;
                      mkTx (housingDept gov) HousingDept houseId]).1,
            AwaitingMint)) ∧
   (agentApproved (approvalsAt gov houseId) = true →
    flow = (gov, StepFailed 1 (Error "Agent already approved")))).
Proof.
  intros flow houseId. subst flow. unfold approvalPhase. split.
  { intros Hout. replace (encodable HOUSE_ID) with false; [done|].
    symmetry. apply andb_false_iff.
    destruct Hout; [left; by apply Z.leb_gt|right; by apply Z.leb_gt]. }
  intros [Hlo Hhi] Hminted.
  replace (encodable HOUSE_ID) with true.
  2:{ symmetry. apply andb_true_iff. split; by apply Z.leb_le. }
  cbv [negb]. fold houseId. rewrite Hminted. split.
  - unfold getApprovalState. intros [= HA HB HH HF].
    set (gov1 := approved Agent houseId gov).
    set (gov2 := approved Bank houseId gov1).
    set (gov3 := approved HousingDept houseId gov2).
    assert (H1 : step gov (mkTx (agent gov) Agent houseId)
                 = (gov1, Success (approvalLog Agent (agent gov) houseId gov)))
      by apply (step_fresh gov Agent houseId HA).
    assert (H2 : step gov1 (mkTx (bank gov) Bank houseId)
                 = (gov2, Success (approvalLog Bank (bank gov) houseId gov1))).
    { replace (bank gov) with (roleAddress Bank gov1)
        by apply approved_roleAddress.
      apply step_fresh. unfold gov1. by rewrite approved_flag_other. }
    assert (H3 : step gov2 (mkTx (housingDept gov) HousingDept houseId)
                 = (gov3, Success (approvalLog HousingDept (housingDept gov)
                                     houseId gov2))).
    { replace (housingDept gov) with (roleAddress HousingDept gov2)
        by (unfold gov2, gov1; by rewrite !approved_roleAddress).
      apply step_fresh. unfold gov2, gov1. by rewrite !approved_flag_other. }
    assert (Hfull : fullyApproved (approvalsAt gov3 houseId) = true).
    { unfold gov3, gov2, gov1. rewrite !approved_at.
      destruct (approvalsAt gov houseId) as [[] [] [] []];
        cbn in HA, HB, HH, HF |- *; done. }
    rewrite !registry_run_cons. cbn [run fst snd].
    rewrite H1. cbn [fst snd]. rewrite H2. cbn [fst snd]. rewrite H3.
    cbn [fst snd]. by rewrite Hfull.
  - intros HA. pose proof (step_repeat gov Agent houseId HA) as H1.
    change (roleAddress Agent gov) with (agent gov) in H1. by rewrite H1.
Qed.

Lemma approval_phase_rerun_witness :
  let gov := (run (constructor 1 2 3) [mkTx 1 Agent 42]).1 in
  approvalPhase (HouseToken.constructor 1 2 "") 1 2 3 (2 ^ 256) gov
  = (gov, EncodingFailed) ∧
  approvalPhase (HouseToken.constructor 1 2 "") 1 2 3 42 gov
  = (gov, StepFailed 1 (Error "Agent already approved")).
Proof.
  intros gov. split.
  - apply (approval_phase_rerun (HouseToken.constructor 1 2 "") gov (2 ^ 256)).
    right. vm_compute. reflexivity.
  - apply (approval_phase_rerun (HouseToken.constructor 1 2 "") gov 42).
    + vm_compute. split; discriminate.
    + reflexivity.
    + reflexivity.
Defined.

End TestFlowProperties.

(** ** The deployment record *)

Module DeploymentRecordProperties.
Import DeploymentRecord.

(** X13. The public-chain script merges into the record it finds: the
    written object holds the verifier and HouseToken addresses, the network
    name and the timestamp under its four keys, and under every other key
    exactly what the file held before, so a governance address written
    earlier by the private-chain script survives. *)
Theorem public_deploy_merges
    (file : option record) (verifierAddress houseTokenAddress now : string)
    (k : string) :
  let written := persistPublic file verifierAddress houseTokenAddress now in
  written !! "network" = Some (JString "hardhat-localhost-8546") ∧
  written !! "verifier" = Some (JString verifierAddress) ∧
  written !! "houseToken" = Some (JString houseTokenAddress) ∧
  written !! "deployedAt" = Some (JString now) ∧
  (k ∉ ["network"; "verifier"; "houseToken"; "deployedAt"] →
   written !! k = default ∅ file !! k) ∧
  (∀ address rpc,
     persistPublic (Some (persistGovernance file address rpc))
       verifierAddress houseTokenAddress now !! "governance"
     = Some (JString address)).
Proof.
  unfold persistPublic, persistGovernance; simpl.
  repeat split.
  - by rewrite !lookup_insert_ne, lookup_insert_eq by done.
  - by rewrite !lookup_insert_ne, lookup_insert_eq by done.
  - by rewrite !lookup_insert_ne, lookup_insert_eq by done.
  - by rewrite lookup_insert_eq.
  - intros Hk. rewrite !not_elem_of_cons in Hk.
    destruct Hk as (? & ? & ? & ? & _).
    by rewrite !lookup_insert_ne by done.
  - intros address rpc.
    by rewrite !lookup_insert_ne, lookup_insert_eq by done.
Qed.

Lemma public_deploy_merges_witness :
  persistPublic (Some {["governance" := JString "0xG"]}) "0xV" "0xH" "now"
    !! "governance"
  = Some (JString "0xG").
Proof.
  destruct (public_deploy_merges (Some {["governance" := JString "0xG"]})
              "0xV" "0xH" "now" "governance") as (_ & _ & _ & _ & Hkeep & _).
  rewrite Hkeep; [reflexivity|].
  rewrite !not_elem_of_cons. repeat split; try discriminate.
  apply not_elem_of_nil.
Defined.

(** X14. The two deploy scripts can run in either order: the record
    written last is the same object, and it holds the governance, verifier
    and HouseToken addresses that the relayer and the test flow read.
    Running a script again replaces its own entries and nothing else. *)
Theorem deploy_scripts_commute
    (file : option record)
    (address rpc verifierAddress houseTokenAddress now : string) :
  let both :=
    persistPublic (Some (persistGovernance file address rpc))
      verifierAddress houseTokenAddress now in
  both
  = persistGovernance
      (Some (persistPublic file verifierAddress houseTokenAddress now))
      address rpc ∧
  both !! "governance" = Some (JString address) ∧
  both !! "verifier" = Some (JString verifierAddress) ∧
  both !! "houseToken" = Some (JString houseTokenAddress) ∧
  (∀ verifierAddress' houseTokenAddress' now',
     persistPublic
       (Some (persistPublic file verifierAddress houseTokenAddress now))
       verifierAddress' houseTokenAddress' now'
     = persistPublic file verifierAddress' houseTokenAddress' now') ∧
  (∀ address' rpc',
     persistGovernance (Some (persistGovernance file address rpc)) address' rpc'
     = persistGovernance file address' rpc').
Proof.
  unfold persistPublic, persistGovernance; simpl.
  split; [|split; [|split; [|split; [|split]]]].
  - apply map_eq. intros k.
    rewrite !lookup_insert. repeat case_decide; simplify_eq; done.
  - by rewrite !lookup_insert_ne, lookup_insert_eq by done.
  - by rewrite !lookup_insert_ne, lookup_insert_eq by done.
  - by rewrite !lookup_insert_ne, lookup_insert_eq by done.
  - intros v' h' n'. apply map_eq. intros k.
    rewrite !lookup_insert. repeat case_decide; simplify_eq; done.
  - intros a' r'. apply map_eq. intros k.
    rewrite !lookup_insert. repeat case_decide; simplify_eq; done.
Qed.

End DeploymentRecordProperties.
